(** * quora-backup: a shallow embedding of [converter.py]

    The converter turns archived Quora pages into portable HTML.  This
    development embeds the parts of [converter.py] that carry its
    behaviour -- the relative-date resolver [parse_quora_date], the
    recursive tree rewriter [cleanup_tree] with its image localizer, and
    the per-file loop -- and proves properties of them.

    Conventions.
    - A Python [str] is a [string]; its characters are the code points
      below 256.
    - A Python [int] is a [Z].
    - A Python exception is a value of [exn]; a computation that may
      raise returns a [result].
    - The file system, the network log and the error stream are threaded
      explicitly as a [world]. *)

From Stdlib Require Import ZArith String Ascii DecimalString Lia Bool.
From stdpp Require Import gmap strings list.

Open Scope string_scope.
Open Scope Z_scope.
Open Scope list_scope.

(** ** Python exceptions and results *)

(** The exceptions the converter can meet, all of class [Exception];
    [OtherException] stands for any other subclass of [Exception].  An
    exception outside [Exception] (a keyboard interrupt, [SystemExit])
    has no value here: the handlers written [except Exception] pass it
    by, and it is not modelled. *)
Inductive exn : Type :=
| ValueError (msg : string)
| IndexError
| AttributeError
| TypeError
| NameError (name : string)
| URLError
| OSError (errno : Z)
| OtherException (cls : string).

Inductive result (A : Type) : Type :=
| Ok (a : A)
| Raise (e : exn).
Arguments Ok {A} a.
Arguments Raise {A} e.

Definition rbind {A B} (r : result A) (k : A -> result B) : result B :=
  match r with
  | Ok a => k a
  | Raise e => Raise e
  end.

Definition is_ok {A} (r : result A) : bool :=
  match r with Ok _ => true | Raise _ => false end.

(** [l[i]]: a negative subscript counts from the end, a subscript out of
    range raises [IndexError]. *)
Definition subscript {A} (l : list A) (i : Z) : result A :=
  let n := Z.of_nat (length l) in
  let j := if i <? 0 then i + n else i in
  if (j <? 0) || (n <=? j) then Raise IndexError
  else match l !! Z.to_nat j with
       | Some x => Ok x
       | None => Raise IndexError
       end.

(** ** Python string primitives used by the converter *)

Module Str.

Definition code (c : ascii) : Z := Z.of_nat (nat_of_ascii c).

Definition is_digit (c : ascii) : bool :=
  (48 <=? code c) && (code c <=? 57).

(** [str.isspace] on the code points below 256. *)
Definition is_space (c : ascii) : bool :=
  let n := code c in
  ((9 <=? n) && (n <=? 13)) || ((28 <=? n) && (n <=? 32))
  || (n =? 133) || (n =? 160).

(** [s.startswith(p)] *)
Definition startswith (p s : string) : bool := String.prefix p s.

Fixpoint drop (n : nat) (s : string) : string :=
  match n, s with
  | O, _ => s
  | S n', String _ r => drop n' r
  | S _, EmptyString => EmptyString
  end.

(** [s.endswith(suf)] *)
Definition endswith (suf s : string) : bool :=
  (String.length suf <=? String.length s)%nat
  && String.eqb (drop (String.length s - String.length suf) s) suf.

(** [sub in s]: [sub] occurs in [s] as a contiguous substring. *)
Fixpoint contains (sub s : string) : bool :=
  String.prefix sub s
  || match s with
     | EmptyString => false
     | String _ r => contains sub r
     end.

(** [s.split()] read from the right: [cur] is the token that starts at
    the current position, [acc] the tokens after it. *)
Definition flush (cur : string) (acc : list string) : list string :=
  match cur with
  | EmptyString => acc
  | _ => cur :: acc
  end.

Fixpoint split_from (s : string) : string * list string :=
  match s with
  | EmptyString => (EmptyString, [])
  | String c r =>
      let '(cur, toks) := split_from r in
      if is_space c then (EmptyString, flush cur toks)
      else (String c cur, toks)
  end.

(** [s.split()]: the maximal runs of non-whitespace characters. *)
Definition split (s : string) : list string :=
  let '(cur, toks) := split_from s in flush cur toks.

(** [sep.join(l)] *)
Fixpoint join (sep : string) (l : list string) : string :=
  match l with
  | [] => EmptyString
  | [x] => x
  | x :: r => x +:+ sep +:+ join sep r
  end.

(** The longest prefix of [s] whose characters satisfy [p], and the
    rest: a greedy character-class repetition. *)
Fixpoint span (p : ascii -> bool) (s : string) : string * string :=
  match s with
  | EmptyString => (EmptyString, EmptyString)
  | String c r =>
      if p c then let '(a, b) := span p r in (String c a, b)
      else (EmptyString, s)
  end.

(** Strip a literal prefix. *)
Fixpoint lit (p s : string) : option string :=
  match p, s with
  | EmptyString, _ => Some s
  | String a p', String b s' => if Ascii.eqb a b then lit p' s' else None
  | String _ _, EmptyString => None
  end.

(** The regular expression [$]: the end of the string, or just before
    a newline that ends the string. *)
Definition eos (s : string) : bool :=
  String.eqb s "" || String.eqb s (String (ascii_of_nat 10) "").

(** The regular expression [\d+], greedy. *)
Definition digits1 (s : string) : option (string * string) :=
  let '(ds, r) := span is_digit s in
  match ds with
  | EmptyString => None
  | _ => Some (ds, r)
  end.

(** An alternation of literals, tried in order.  The alternations of
    the converter are over names of equal length, so at most one
    alternative is a prefix of the input and no backtracking into the
    alternation can succeed. *)
Fixpoint alt (names : list string) (s : string) : option (string * string) :=
  match names with
  | [] => None
  | n :: ns =>
      match lit n s with
      | Some r => Some (n, r)
      | None => alt ns s
      end
  end.

(** [int(ds)] for a string of decimal digits. *)
Fixpoint int_acc (acc : Z) (ds : string) : Z :=
  match ds with
  | EmptyString => acc
  | String c r => int_acc (10 * acc + (code c - 48)) r
  end.
Definition int (ds : string) : Z := int_acc 0 ds.

(** ['%d' % n] *)
Definition of_Z (n : Z) : string := NilZero.string_of_int (Z.to_int n).

End Str.

(** ** [time.gmtime]: seconds since the epoch to a broken-down UTC time

    The origin of a run is an [int], or a [float] when it comes from
    [time.time()]; [gmtime] rounds its argument down to whole seconds,
    and subtracting whole seconds commutes with that, so the model takes
    the origin as the integer it is rounded to.  [gmtime] is total here:
    the year range of the platform is not modelled. *)

Module Time.

Record struct_time : Type := {
  tm_year : Z;
  tm_mon : Z;   (* 1..12 *)
  tm_mday : Z;  (* 1..31 *)
  tm_hour : Z;
  tm_min : Z;
  tm_sec : Z;
  tm_wday : Z   (* Monday is 0 *)
}.

(** The day number (days since 1970-01-01) an instant falls on. *)
Definition day_of (secs : Z) : Z := secs / 86400.

(** 1970-01-01 was a Thursday. *)
Definition wday_of_day (d : Z) : Z := (d + 3) mod 7.

(** Proleptic Gregorian calendar date of a day number. *)
Definition civil_of_day (d : Z) : Z * Z * Z :=
  let z := d + 719468 in
  let era := z / 146097 in
  let doe := z - era * 146097 in
  let yoe := (doe - doe / 1460 + doe / 36524 - doe / 146096) / 365 in
  let doy := doe - (365 * yoe + yoe / 4 - yoe / 100) in
  let mp := (5 * doy + 2) / 153 in
  let day := doy - (153 * mp + 2) / 5 + 1 in
  let m := if mp <? 10 then mp + 3 else mp - 9 in
  let y := yoe + era * 400 + (if m <=? 2 then 1 else 0) in
  (y, m, day).

(** Day number of a calendar date. *)
Definition day_of_civil (y m d : Z) : Z :=
  let y' := if m <=? 2 then y - 1 else y in
  let era := y' / 400 in
  let yoe := y' - era * 400 in
  let mp := if 2 <? m then m - 3 else m + 9 in
  let doy := (153 * mp + 2) / 5 + d - 1 in
  let doe := yoe * 365 + yoe / 4 - yoe / 100 + doy in
  era * 146097 + doe - 719468.

Definition gmtime (secs : Z) : struct_time :=
  let d := day_of secs in
  let r := secs mod 86400 in
  let '(y, m, md) := civil_of_day d in
  {| tm_year := y; tm_mon := m; tm_mday := md;
     tm_hour := r / 3600; tm_min := (r mod 3600) / 60; tm_sec := r mod 60;
     tm_wday := wday_of_day d |}.

Definition is_leap (y : Z) : bool :=
  ((y mod 4 =? 0) && negb (y mod 100 =? 0)) || (y mod 400 =? 0).

Definition days_in_month (y m : Z) : Z :=
  if m =? 2 then (if is_leap y then 29 else 28)
  else if (m =? 4) || (m =? 6) || (m =? 9) || (m =? 11) then 30
  else 31.

End Time.

(** ** DateResolver: [parse_quora_date] *)

Module DateResolver.
Import Str Time.

Definition days_of_week : list string :=
  ["Mon"; "Tue"; "Wed"; "Thu"; "Fri"; "Sat"; "Sun"].

Definition months_of_year : list string :=
  ["Jan"; "Feb"; "Mar"; "Apr"; "May"; "Jun";
   "Jul"; "Aug"; "Sep"; "Oct"; "Nov"; "Dec"].

(** [l.index(x)] for an [x] that occurs in [l]. *)
Fixpoint index_of (x : string) (l : list string) : option Z :=
  match l with
  | [] => None
  | y :: r => if String.eqb x y then Some 0 else Z.succ <$> index_of x r
  end.

(** The seven [re.match] calls at the head of the function.  A match
    object is modelled by the groups the function reads from it. *)

(** ['just now$'] *)
Definition m0 (s : string) : bool :=
  match lit "just now" s with
  | Some r => eos r
  | None => false
  end.

Definition digits_then (suffix s : string) : option string :=
  '(ds, r) ← digits1 s;
  r' ← lit suffix r;
  if eos r' then Some ds else None.

(** ['(\d+)m ago$'], group 1 *)
Definition m1 (s : string) : option string := digits_then "m ago" s.

(** ['(\d+)h ago$'], group 1 *)
Definition m2 (s : string) : option string := digits_then "h ago" s.

(** ['(Mon|...|Sun)$'], group 1 *)
Definition m3 (s : string) : option string :=
  '(d, r) ← alt days_of_week s;
  if eos r then Some d else None.

(** ['(Jan|...|Dec) (\d+)$'], groups 1 and 2 *)
Definition m4 (s : string) : option (string * string) :=
  '(m, r) ← alt months_of_year s;
  r1 ← lit " " r;
  '(d, r2) ← digits1 r1;
  if eos r2 then Some (m, d) else None.

(** ['(Jan|...|Dec) (\d+), (\d+)$'], groups 1, 2 and 3 *)
Definition m5 (s : string) : option (string * string * string) :=
  '(m, r) ← alt months_of_year s;
  r1 ← lit " " r;
  '(d, r2) ← digits1 r1;
  r3 ← lit ", " r2;
  '(y, r4) ← digits1 r3;
  if eos r4 then Some (m, d, y) else None.

(** ['(\d+)[ap]m$'] *)
Definition m6 (s : string) : bool :=
  match digits1 s with
  | Some (_, String c r) =>
      (Ascii.eqb c "a" || Ascii.eqb c "p")
      && match lit "m" r with Some r' => eos r' | None => false end
  | _ => false
  end.

(** [time.strptime(date_str, '%b %d, %Y')], in the C locale, on a
    string that [m5] accepts (the only call site): a day of one or two
    digits between 1 and 31, a year of exactly four digits that ends
    the string, and a date that exists in the calendar; [ValueError]
    otherwise. *)
Definition strptime (s : string) : result struct_time :=
  match m5 s with
  | Some (m, d, y) =>
      let month := default 0 (index_of m months_of_year) + 1 in
      let day := int d in
      let year := int y in
      if (String.length d <=? 2)%nat && (1 <=? day) && (day <=? 31)
         && (String.length y =? 4)%nat
         && String.eqb s (m +:+ " " +:+ d +:+ ", " +:+ y)
         && (1 <=? year) && (day <=? days_in_month year month)
      then Ok {| tm_year := year; tm_mon := month; tm_mday := day;
                 tm_hour := 0; tm_min := 0; tm_sec := 0;
                 tm_wday := wday_of_day (day_of_civil year month day) |}
      else Raise (ValueError "time data does not match format")
  | None => Raise (ValueError "time data does not match format")
  end.

(** The two backward walks
    [offset = start; while offset <= limit: tm = gmtime(origin - 86400*offset); if hit: break; offset += 1; else: raise].
    [n] counts the iterations left: [limit - offset + 1].  [None] is
    the [else] branch of the [while]. *)
Fixpoint walk_back (origin : Z) (hit : struct_time -> bool)
         (offset : Z) (n : nat) : option struct_time :=
  match n with
  | O => None
  | S n' =>
      let tm := gmtime (origin - 86400 * offset) in
      if hit tm then Some tm else walk_back origin hit (offset + 1) n'
  end.

Definition dquote : string := String (ascii_of_nat 34) EmptyString.

Definition invalid (date_str : string) : exn :=
  ValueError ("date " +:+ dquote +:+ date_str +:+ dquote +:+ " is invalid").

Definition uninterpreted (date_str : string) : exn :=
  ValueError ("date " +:+ dquote +:+ date_str +:+ dquote
              +:+ " could not be interpreted").

(** Lines 37-78: the broken-down time the date string denotes. *)
Definition resolve_tm (origin : Z) (date_str : string) : result struct_time :=
  if m0 date_str || m6 date_str then Ok (gmtime origin)
  else match m1 date_str with
  | Some g => Ok (gmtime (origin - 60 * int g))
  | None =>
  match m2 date_str with
  | Some g => Ok (gmtime (origin - 3600 * int g))
  | None =>
  match m3 date_str with
  | Some g =>
      let day_of_week := default 0 (index_of g days_of_week) in
      match walk_back origin (fun tm => tm_wday tm =? day_of_week) 1 7 with
      | Some tm => Ok tm
      | None => Raise (invalid date_str)
      end
  | None =>
  match m4 date_str with
  | Some (gm, gd) =>
      let month_of_year := default 0 (index_of gm months_of_year) + 1 in
      let day_of_month := int gd in
      match walk_back origin
              (fun tm => (tm_mon tm =? month_of_year)
                         && (tm_mday tm =? day_of_month)) 1 366 with
      | Some tm => Ok tm
      | None => Raise (invalid date_str)
      end
  | None =>
  match m5 date_str with
  | Some _ => strptime date_str
  | None => Raise (uninterpreted date_str)
  end end end end end.

(** Line 80: ['%s %d, %d' % (months_of_year[tm.tm_mon], tm.tm_mday, tm.tm_year)] *)
Definition render (tm : struct_time) : result string :=
  rbind (subscript months_of_year (tm_mon tm)) (fun mon =>
  Ok (mon +:+ " " +:+ of_Z (tm_mday tm) +:+ ", " +:+ of_Z (tm_year tm))).

Definition parse_quora_date (origin : Z) (date_str : string) : result string :=
  rbind (resolve_tm origin date_str) render.

End DateResolver.


(** ** The DOM of [xml.dom.minidom], as far as the converter uses it *)

Module Dom.

(** A node is a text node, an element, or a node of another kind; the
    HTML parser builds comments as the only other kind below an
    element. *)
#[warnings="-register-all"]
Inductive node : Type :=
| Text (data : string)
| Comment (data : string)
| Element (tagName : string) (attributes : gmap string string)
          (childNodes : list node).

Section node_induction.
Variable P : node -> Prop.
Hypothesis P_text : forall d, P (Text d).
Hypothesis P_comment : forall d, P (Comment d).
Hypothesis P_element :
  forall t a kids, Forall P kids -> P (Element t a kids).

Fixpoint node_ind' (n : node) : P n :=
  match n with
  | Text d => P_text d
  | Comment d => P_comment d
  | Element t a kids =>
      P_element t a kids
        ((fix all (l : list node) : Forall P l :=
            match l with
            | [] => @List.Forall_nil node P
            | x :: r => @List.Forall_cons node P x r (node_ind' x) (all r)
            end) kids)
  end.
End node_induction.

Definition childNodes (n : node) : list node :=
  match n with
  | Element _ _ kids => kids
  | _ => []
  end.

(** [n.firstChild]; [None] is Python's [None]. *)
Definition firstChild (n : node) : option node := head (childNodes n).

(** [n.getAttribute(name)]: the empty string when the attribute is
    absent. *)
Definition getAttribute (n : node) (name : string) : string :=
  match n with
  | Element _ a _ => default "" (a !! name)
  | _ => ""
  end.

Definition setAttribute (name value : string) (n : node) : node :=
  match n with
  | Element t a kids => Element t (<[name := value]> a) kids
  | _ => n
  end.

(** [doc.createElement(tag)] *)
Definition createElement (tag : string) : node := Element tag ∅ [].

(** [parent.appendChild(child)] on a node under construction. *)
Definition appendChild (child : node) (parent : node) : node :=
  match parent with
  | Element t a kids => Element t a (kids ++ [child])
  | _ => parent
  end.

(** [n.cloneNode(True)]: a fresh copy of the whole subtree. *)
Fixpoint clone_deep (n : node) : node :=
  match n with
  | Text d => Text d
  | Comment d => Comment d
  | Element t a kids => Element t a (map clone_deep kids)
  end.

(** [n.cloneNode(False)]: a fresh copy of the node and its attributes,
    without children. *)
Definition clone_shallow (n : node) : node :=
  match n with
  | Text d => Text d
  | Comment d => Comment d
  | Element t a _ => Element t a []
  end.

(** [get_text_content(node)]: the data of the text nodes among the
    children of [node]. *)
Fixpoint text_of (kids : list node) : string :=
  match kids with
  | [] => ""
  | Text d :: r => d +:+ text_of r
  | _ :: r => text_of r
  end.
Definition get_text_content (n : node) : string := text_of (childNodes n).

(** [n.getElementsByTagName(tag)]: the elements named [tag] below [n],
    in document order. *)
Fixpoint elements_in (tag : string) (n : node) : list node :=
  match n with
  | Element t _ kids =>
      (if String.eqb t tag then [n] else [])
      ++ flat_map (elements_in tag) kids
  | _ => []
  end.
Definition getElementsByTagName (tag : string) (n : node) : list node :=
  flat_map (elements_in tag) (childNodes n).

(** [x in l] for a list of strings. *)
Definition mem (x : string) (l : list string) : bool :=
  existsb (String.eqb x) l.

End Dom.

(** ** The environment of a run and the state it changes *)

(** What a run reads but does not change: the command-line options the
    rewriter consults and the behaviour of the collaborators outside the
    program (network, operating system, HTML parser). *)
Record env : Type := {
  no_download : bool;                      (* args.no_download *)
  verbose : bool;                          (* args.verbose *)
  output_dir : string;                     (* args.output_dir *)
  urlopen : string -> exn + string;        (* urllib.request.urlopen(u).read() *)
  open_errno : string -> option Z;         (* why creating a new file fails *)
  write_errno : string -> option Z;        (* why os.write to it fails *)
  remove_fails : string -> bool;           (* os.remove raises *)
  parse : string -> Dom.node               (* HTMLParser.parse(s).documentElement *)
}.

Record world : Type := {
  files : gmap string string;   (* the files that exist, with their bytes *)
  fetched : list string;        (* the URLs fetched so far, oldest first *)
  stderr : list string          (* the lines printed to the error stream *)
}.

Definition print (msg : string) (w : world) : world :=
  {| files := files w; fetched := fetched w; stderr := stderr w ++ [msg] |}.

Definition set_files (f : gmap string string) (w : world) : world :=
  {| files := f; fetched := fetched w; stderr := stderr w |}.

Definition fetch (url : string) (w : world) : world :=
  {| files := files w; fetched := fetched w ++ [url]; stderr := stderr w |}.

(** [log_if_v(msg)] *)
Definition log_if_v (e : env) (msg : string) (w : world) : world :=
  if verbose e then print ("[DEBUG] " +:+ msg) w else w.

(** ** ImageLocalizer: the body of the [img] branch, lines 189-232 *)

Module ImageLocalizer.
Import Str.

Definition not_sep (c : ascii) : bool :=
  negb (Ascii.eqb c "/" || Ascii.eqb c "?").

(** [re.search('/([^/?]+)(\?|$)', src)], group 1: at the leftmost
    slash that is followed by a non-empty run of characters other
    than [/] and [?] which a [?] or the end of the string ends, that
    run.  (The run is greedy, so it ends at [/], [?] or the end; only
    the last two let the match succeed, and no shorter run does.) *)
Fixpoint url_segment (src : string) : option string :=
  match src with
  | EmptyString => None
  | String c r =>
      if Ascii.eqb c "/" then
        match span not_sep r with
        | (String a seg, EmptyString) => Some (String a seg)
        | (String a seg, String q _) =>
            if Ascii.eqb q "?" then Some (String a seg) else url_segment r
        | (EmptyString, _) => url_segment r
        end
      else url_segment r
  end.

(** Lines 190-195. *)
Definition derive_filename (src : string) : result string :=
  match url_segment src with
  | None => Raise (ValueError "")
  | Some filename =>
      Ok (if endswith ".png" filename then filename
          else filename +:+ ".png")
  end.

(** Lines 205-224, after the file was created: fetch, write, and on
    any failure remove the file and re-raise.  [time.sleep(args.delay)]
    changes nothing the model records; the delay is taken to be
    non-negative, as its default is.  The handler of line 213 is
    [except Exception], the class of every value of [exn]; an exception
    outside it would leave the file behind (lines 221-223 only close
    it). *)
Definition download (e : env) (src filename path : string) (w : world)
  : result unit * world :=
  let w1 := fetch src (log_if_v e ("Downloading image from " +:+ src) w) in
  let failed (ex : exn) (w : world) :=
    if remove_fails e path
    then (Raise ex,
          print ("[WARNING] Failed to remove incomplete file " +:+ filename) w)
    else (Raise ex, set_files (delete path (files w)) w) in
  match urlopen e src with
  | inl ex => failed ex w1
  | inr img =>
      match write_errno e path with
      | Some n => failed (OSError n) w1
      | None => (Ok tt, set_files (<[path := img]> (files w1)) w1)
      end
  end.

(** Lines 190-226, the body of the outer [try]: the local file name,
    or the exception that leaves the body. *)
Definition try_localize (e : env) (src : string) (w : world)
  : result string * world :=
  match derive_filename src with
  | Raise ex => (Raise ex, w)
  | Ok filename =>
      let path := output_dir e +:+ "/" +:+ filename in
      match files w !! path with
      | Some _ =>
          (* os.open fails with EEXIST *)
          (Ok filename,
           log_if_v e ("Image " +:+ filename
                       +:+ " has already been saved; skipping") w)
      | None =>
          match open_errno e path with
          | Some n => (Raise (OSError n), w)
          | None =>
              let w1 := set_files (<[path := ""]> (files w)) w in
              match download e src filename path w1 with
              | (Ok _, w2) => (Ok filename, w2)
              | (Raise ex, w2) => (Raise ex, w2)
              end
          end
      end
  end.

Inductive localized : Type :=
| Local (filename : string)   (* the [src] attribute becomes [filename] *)
| Remote                      (* a handled failure: [src] stays remote *)
| Escaped (ex : exn).         (* an exception no [except] clause names *)

(** Lines 189-232: the [try] with its three [except] clauses. *)
Definition localize (e : env) (src : string) (w : world)
  : localized * world :=
  match try_localize e src w with
  | (Ok filename, w') => (Local filename, w')
  | (Raise URLError, w') =>
      (Remote,
       print ("[WARNING] Failed to download image from URL " +:+ src) w')
  | (Raise (OSError _), w') =>
      (Remote,
       print ("[WARNING] Failed to save image from URL " +:+ src) w')
  | (Raise (ValueError _), w') =>
      (Remote,
       print ("[WARNING] Failed to determine image name from URL " +:+ src) w')
  | (Raise ex, w') => (Escaped ex, w')
  end.

End ImageLocalizer.

(** ** TreeRewriter: [cleanup_tree] *)

Module TreeRewriter.
Import Str Dom ImageLocalizer.

Definition newline : string := String (ascii_of_nat 10) EmptyString.

Definition void_tags : list string := ["br"; "hr"].

Definition pass_through_tags : list string :=
  ["b"; "i"; "u"; "h1"; "h2"; "ol"; "ul"; "li"; "blockquote"; "wbr"; "p"].

(** The branch of the [if]/[elif] chain a child takes, lines 97-255. *)
Inductive rule : Type :=
| RText | RNonElement | RVoid | RPass | RQuestionTitle | RPostTitle
| REmbed | RInlineCode | RSkip | RUnwrap | RLink | RImage | RCodeBlock
| ROther.

Definition classify (child : node) : rule :=
  match child with
  | Text _ => RText
  | Comment _ => RNonElement
  | Element tag _ _ =>
      let class := getAttribute child "class" in
      if mem tag void_tags then RVoid
      else if mem tag pass_through_tags then RPass
      else if contains "question_text" class then RQuestionTitle
      else if contains "board_item_title" class then RPostTitle
      else if negb (String.eqb (getAttribute child "data-embed") "") then REmbed
      else if contains "inline_codeblock" class then RInlineCode
      else if contains "ContentFooter" class || contains "hidden" class then RSkip
      else if mem tag ["span"; "div"] then RUnwrap
      else if String.eqb tag "a" then RLink
      else if String.eqb tag "img" then RImage
      else if contains "codeblocktable" class then RCodeBlock
      else ROther
  end.

(** Lines 127-142, the body of the [try] of the embed branch: the
    node to append. *)
Definition embed (e : env) (child : node) : result node :=
  let iframe_doc := parse e (getAttribute child "data-embed") in
  rbind (subscript (childNodes iframe_doc) 1) (fun body =>
  match firstChild body with
  | Some (Element t a kids as iframe) =>
      if negb (String.eqb t "iframe") then Raise (ValueError "")
      else
        let new_node := clone_shallow iframe in
        let src := getAttribute new_node "src" in
        let new_node :=
          if startswith "//" src
          then setAttribute "src" ("http:" +:+ src) new_node
          else new_node in
        Ok (setAttribute "height" "295" (setAttribute "width" "525" new_node))
  | _ => Raise AttributeError   (* [None] or a node without [tagName] *)
  end).

(** Lines 151-155, the body of the [try] of the inline-code branch. *)
Definition inline_code (child : node) : result node :=
  match firstChild child with
  | None => Raise AttributeError            (* None.firstChild *)
  | Some pre =>
      match firstChild pre with
      | Some (Element t _ _ as span) =>
          if negb (String.eqb t "span") then Raise (ValueError "")
          else Ok (Element "code" ∅ [Text (get_text_content span)])
      | _ => Raise AttributeError           (* no [tagName] *)
      end
  end.

(** Lines 238-250, the body of the [try] of the code-block branch. *)
Definition code_block (child : node) : node :=
  let divs := getElementsByTagName "div" child in
  let lines :=
    map (fun div =>
           join "" (map get_text_content (getElementsByTagName "span" div)))
        divs in
  Element "pre" ∅ [Element "code" ∅ [Text (join newline lines)]].

(** What one iteration of the loop did. *)
Inductive step_result : Type :=
| Emit (out : list node) (child' : node)
    (* [out] was appended to [dest]; the child stays in the source,
       as [child'] *)
| Moved (out : list node)
    (* [out] was appended to [dest]; the child was unlinked from the
       source *)
| Fail (out : list node) (child' : node) (ex : exn).
    (* [out] was appended to [dest], then [ex] left the loop *)

(** What a call of [cleanup_tree] did. *)
Record outcome : Type := {
  appended : list node;    (* the nodes appended to [dest], in order *)
  kept : list node;        (* [src.childNodes] after the call *)
  raised : option exn      (* the exception that left the call *)
}.

(** Lines 177-234. *)
Definition image (e : env) (child : node) (w : world) : step_result * world :=
  let src :=
    let master := getAttribute child "master_src" in
    if String.eqb master "" then getAttribute child "src" else master in
  let new_node :=
    setAttribute "alt" (getAttribute child "alt")
      (setAttribute "src" src (createElement "img")) in
  if no_download e then (Emit [new_node] child, w)
  else
    match localize e src w with
    | (Local filename, w') =>
        (Emit [setAttribute "src" filename new_node] child, w')
    | (Remote, w') => (Emit [new_node] child, w')
    | (Escaped ex, w') => (Fail [new_node] child ex, w')
    end.

(** One iteration of the loop body for [child]; [rec] is
    [cleanup_tree] itself, called on [child]. *)
Definition step (rec : node -> world -> outcome * world)
           (e : env) (child : node) (w : world) : step_result * world :=
  match classify child with
  | RText => (Emit [clone_shallow child] child, w)
  | RNonElement => (Fail [] child (ValueError ""), w)
  | RVoid => (Emit [clone_shallow child] child, w)
  | RPass =>
      match child with
      | Element tag a _ =>
          let '(o, w') := rec child w in
          let child' := Element tag a (kept o) in
          match raised o with
          | None => (Emit [Element tag ∅ (appended o)] child', w')
          | Some ex => (Fail [] child' ex, w')
          end
      | _ => (Emit [] child, w)
      end
  | RQuestionTitle | RPostTitle =>
      (Moved [Element "h1" ∅ [child]], w)
  | REmbed =>
      match embed e child with
      | Ok new_node => (Emit [new_node] child, w)
      | Raise _ =>
          (Emit [clone_deep child] child,
           print "[WARNING] Failed to parse video embed code" w)
      end
  | RInlineCode =>
      match inline_code child with
      | Ok code_element => (Emit [code_element] child, w)
      | Raise (ValueError _) =>
          (Emit [clone_deep child] child,
           print "[WARNING] Failed to parse inline codeblock" w)
      | Raise ex => (Fail [] child ex, w)
      end
  | RSkip => (Emit [] child, w)
  | RUnwrap =>
      match child with
      | Element tag a _ =>
          let '(o, w') := rec child w in
          let child' := Element tag a (kept o) in
          match raised o with
          | None => (Emit (appended o) child', w')
          | Some ex => (Fail (appended o) child' ex, w')
          end
      | _ => (Emit [] child, w)
      end
  | RLink =>
      match child with
      | Element tag a _ =>
          let href := getAttribute child "href" in
          let href :=
            if startswith "/" href then "http://quora.com" +:+ href
            else href in
          let '(o, w') := rec child w in
          let new_node := Element "a" {[ "href" := href ]} (appended o) in
          let child' := Element tag a (kept o) in
          match raised o with
          | None => (Emit [new_node] child', w')
          | Some ex => (Fail [new_node] child' ex, w')
          end
      | _ => (Emit [] child, w)
      end
  | RImage => image e child w
  | RCodeBlock => (Emit [code_block child] child, w)
  | ROther =>
      (Emit [clone_deep child] child,
       print ("[WARNING] Unrecognized node "
              +:+ match child with Element t _ _ => t | _ => "" end) w)
  end.

(** [for child in src.childNodes: body].  The iterator walks the live
    child list by position: when the body unlinks the current child,
    the list shortens under the iterator and the sibling that follows
    is passed over. *)
Fixpoint loop (body : node -> world -> step_result * world)
         (l : list node) (w : world) : outcome * world :=
  match l with
  | [] => ({| appended := []; kept := []; raised := None |}, w)
  | child :: rest =>
      match body child w with
      | (Emit out child', w1) =>
          let '(o, w2) := loop body rest w1 in
          ({| appended := out ++ appended o;
              kept := child' :: kept o;
              raised := raised o |}, w2)
      | (Moved out, w1) =>
          match rest with
          | [] => ({| appended := out; kept := []; raised := None |}, w1)
          | passed_over :: rest' =>
              let '(o, w2) := loop body rest' w1 in
              ({| appended := out ++ appended o;
                  kept := passed_over :: kept o;
                  raised := raised o |}, w2)
          end
      | (Fail out child' ex, w1) =>
          ({| appended := out; kept := child' :: rest; raised := Some ex |},
           w1)
      end
  end.

(** [cleanup_tree(doc, src, dest)]: [appended] is what the call
    appends to [dest]. *)
Fixpoint cleanup_tree (e : env) (src : node) (w : world) {struct src}
  : outcome * world :=
  match src with
  | Element _ _ kids => loop (step (cleanup_tree e) e) kids w
  | _ => ({| appended := []; kept := []; raised := None |}, w)
  end.

End TreeRewriter.

(** ** PageAssembler: the per-file loop, lines 302-426 *)

Module PageAssembler.
Import Str Dom DateResolver TreeRewriter.

(** A reference to a node of the document is the path that leads to
    it from the root: the positions of the children to descend into.
    Two references to one node are one path, so a change made through
    one is seen through the other. *)
Definition path : Type := list nat.

Fixpoint lookup_path (p : path) (n : node) : option node :=
  match p with
  | [] => Some n
  | i :: p' => childNodes n !! i ≫= lookup_path p'
  end.

Fixpoint update_path (p : path) (f : node -> node) (n : node) : node :=
  match p with
  | [] => f n
  | i :: p' =>
      match n with
      | Element t a kids => Element t a (alter (update_path p' f) i kids)
      | _ => n
      end
  end.

(** The paths of the elements named [tag] in the subtree of [n], [n]
    included, in document order. *)
Fixpoint element_paths (tag : string) (n : node) : list path :=
  match n with
  | Element t _ kids =>
      (if String.eqb t tag then [[]] else [])
      ++ (fix children (i : nat) (l : list node) : list path :=
            match l with
            | [] => []
            | k :: r =>
                map (cons i) (element_paths tag k) ++ children (S i) r
            end) O kids
  | _ => []
  end.

(** [n.nodeValue] *)
Definition nodeValue (n : node) : option string :=
  match n with
  | Text d | Comment d => Some d
  | Element _ _ _ => None
  end.

(** [n.nodeValue = v]: an element has no data to replace. *)
Definition set_nodeValue (v : string) (n : node) : node :=
  match n with
  | Text _ => Text v
  | Comment _ => Comment v
  | Element _ _ _ => n
  end.

(** The longest prefix of [s] that ends with [suffix]: a greedy [.*]
    followed by a literal. *)
Fixpoint greedy_upto (suffix s : string) : option string :=
  match s with
  | EmptyString => if String.eqb suffix "" then Some "" else None
  | String c r =>
      match greedy_upto suffix r with
      | Some g => Some (String c g)
      | None => if String.prefix suffix s then Some suffix else None
      end
  end.

Definition not_newline (c : ascii) : bool :=
  negb (Ascii.eqb c (ascii_of_nat 10)).

(** [re.match(label + '(.+ ago)', text)], group 1: after the label,
    the longest stretch of the first line that ends with [" ago"] and
    has a character before it. *)
Definition match_ago (label text : string) : option string :=
  r ← lit label text;
  match fst (span not_newline r) with
  | EmptyString => None
  | String c line => String c <$> greedy_upto " ago" line
  end.

(** The body of the [try] of a footer branch, after [date_node = node]:
    read the text of the first anchor, and when it matches write the
    resolved date to the anchor at position [target].  The result is
    the footer as the body leaves it. *)
Definition footer_try (label : string) (target : Z) (origin : Z)
           (date_node : node) : result node :=
  let anchors :=
    filter (fun p => bool_decide (p ≠ [])) (element_paths "a" date_node) in
  rbind (subscript anchors 0) (fun a0 =>
  match lookup_path a0 date_node ≫= firstChild with
  | None => Raise AttributeError
  | Some first =>
      match nodeValue first with
      | None => Raise TypeError
      | Some text =>
          match match_ago label text with
          | None => Ok date_node
          | Some relative =>
              rbind (parse_quora_date origin relative) (fun new_time =>
              rbind (subscript anchors target) (fun a =>
              match lookup_path a date_node ≫= firstChild with
              | None => Raise AttributeError
              | Some _ =>
                  Ok (update_path (a ++ [O])
                        (set_nodeValue (label +:+ new_time)) date_node)
              end))
          end
      end
  end).

(** A footer branch with its [except Exception: pass]. *)
Definition footer (label : string) (target : Z) (origin : Z)
           (date_node : node) : node :=
  match footer_try label target origin date_node with
  | Ok n => n
  | Raise _ => date_node
  end.

(** The four variables the scan of the [div]s assigns. *)
Record regions : Type := {
  answer_node : option path;
  question_node : option path;
  post_node : option path;
  date_node : option path
}.

Definition no_regions : regions :=
  {| answer_node := None; question_node := None;
     post_node := None; date_node := None |}.

(** Lines 327-368: one iteration of the scan, for the [div] at [p]. *)
Definition scan_div (origin : Z) (p : path) (st : node * regions)
  : node * regions :=
  let '(document, r) := st in
  match lookup_path p document with
  | None => st
  | Some node =>
      let class := split (getAttribute node "class") in
      if mem "ExpandedAnswer" class then
        (document, {| answer_node := Some p; question_node := question_node r;
                      post_node := post_node r; date_node := date_node r |})
      else if mem "ExpandedPostContent" class then
        (document, {| answer_node := answer_node r; question_node := question_node r;
                      post_node := Some p; date_node := date_node r |})
      else if mem "ans_page_question_header" class then
        (document, {| answer_node := answer_node r; question_node := Some p;
                      post_node := post_node r; date_node := date_node r |})
      else if mem "BoardItem" class then
        (document, {| answer_node := answer_node r; question_node := Some p;
                      post_node := post_node r; date_node := date_node r |})
      else if mem "CredibilityFacts" class then
        (update_path p (footer "Answered " 0 origin) document,
         {| answer_node := answer_node r; question_node := question_node r;
            post_node := post_node r; date_node := Some p |})
      else if mem "PostFooter" class then
        (update_path p (footer "Posted " 1 origin) document,
         {| answer_node := answer_node r; question_node := question_node r;
            post_node := post_node r; date_node := Some p |})
      else st
  end.

(** Lines 320-368.  The list of [div]s is taken once, before the
    loop; the loop changes text only, so the paths stay valid. *)
Definition scan (origin : Z) (document : node) : node * regions :=
  foldl (fun st p => scan_div origin p st) (document, no_regions)
        (element_paths "div" document).


(** The names bound in the module namespace when the loop body runs:
    the imports, the functions, and the variables assigned at module
    level (no function declares a global). *)
Definition module_names : list string :=
  ["argparse"; "errno"; "HTMLParser"; "serializer"; "treebuilders";
   "treewalkers"; "os"; "re"; "sys"; "time"; "urllib"; "Node";
   "log_if_v"; "get_title_node"; "get_text_content"; "parse_quora_date";
   "cleanup_tree"; "parser"; "args"; "origin"; "filenames"; "filename";
   "page"; "page_html"; "document"; "title_node"; "answer_node";
   "question_node"; "post_node"; "date_node"; "node"; "text"; "matchObj";
   "new_time"; "new_page"; "head_node"; "meta_node"; "css"; "style_node";
   "body_node"; "answer_out_node"; "question_out_node"; "fleuron";
   "qn_div"; "saved_page"; "error"].

(** Reading a global name: [NameError] when nothing binds it. *)
Definition read_name (name : string) : result unit :=
  if mem name module_names then Ok tt else Raise (NameError name).

(** What the loop body did with one file. *)
Inductive file_outcome : Type :=
| Unreadable                 (* the read failed: [continue] *)
| Skipped                    (* a region is missing: warning, [continue] *)
| Written (page : node)      (* the page was saved *)
| Unwritable                 (* the save failed: error message *)
| Crashed (ex : exn)         (* an exception left the loop body *)
| Unmodelled.                (* regions nested in one another, see [assemble] *)

(** Lines 370-371 and 373-374:
    [print('[WARNING] Failed to locate answer on page (Source URL was %s)' % url, file=sys.stderr); continue].
    The argument of [print] is evaluated first, and it reads [url]. *)
Definition not_located (w : world) : file_outcome * world :=
  match read_name "url" with
  | Ok _ =>
      (Skipped, print "[WARNING] Failed to locate answer on page" w)
  | Raise ex => (Crashed ex, w)
  end.

(** Unlink the node at [p]. *)
Fixpoint remove_path (p : path) (n : node) : node :=
  match p, n with
  | [i], Element t a kids => Element t a (delete i kids)
  | i :: p', Element t a kids => Element t a (alter (remove_path p') i kids)
  | _, _ => n
  end.

(** The path of the node that was at [p], once the node at [r] is
    unlinked ([r] not above [p]): a later sibling moves up by one. *)
Fixpoint shift (r p : path) : path :=
  match r, p with
  | [i], j :: p' => if (i <? j)%nat then pred j :: p' else p
  | i :: r', j :: p' => if (i =? j)%nat then j :: shift r' p' else p
  | _, _ => p
  end.

Definition above (r p : path) : bool := bool_decide (r `prefix_of` p).

(** [u'\u2766'], the floral heart of line 402: one character, whose
    code point lies above those a [string] of this development ranges
    over.  It is written here as the three bytes of its UTF-8
    encoding, the form in which the serializer writes it to the file;
    no function reads it. *)
Definition fleuron : string := "❦".

Definition css : string :=
  "blockquote { border-left: 2px solid #ddd; color: #666; margin: 0; padding-left: 16px; } "
  +:+ "code, pre { background: #f4f4f4; } "
  +:+ "h1 a { text-decoration:none; } "
  +:+ "pre, h2 { margin: 0; } "
  +:+ ".CredibilityFacts { text-align: right; font-style: italic; } "
  +:+ "ul { margin: 0 0 0 16px; padding: 8px 0; } "
  +:+ "ol { margin: 0 0 0 28px; padding: 8px 0; } "
  +:+ "li { margin: 0 0 8px; } ".

(** Lines 377-416, for a document whose regions were found.  The
    title and the footer are moved into the new page, then the
    question and the content are rewritten.  The model covers the
    documents in which the title holds no region, the footer holds
    neither the question nor the content, and the question and the
    content do not hold one another; for the others, where a move or
    a rewrite of one region changes another, it answers
    [Unmodelled].  [q] is the question, [c] the post or else the
    answer. *)
Definition assemble (e : env) (document : node) (title : option path)
           (q c : path) (date : option path) (w : world)
  : file_outcome * world :=
  let refs := q :: c :: match date with Some d => [d] | None => [] end in
  let nested :=
    match title with
    | Some t => existsb (above t) refs
    | None => false
    end
    || match date with
       | Some d => above d q || above d c
       | None => false
       end
    || above q c || above c q in
  if nested then (Unmodelled, w)
  else
    let after r p := match r with Some r => shift r p | None => p end in
    let document1 :=
      match title with Some t => remove_path t document | None => document end in
    let title_node := title ≫= fun t => lookup_path t document in
    match date with
    | None => (Crashed AttributeError, w)     (* appendChild(None) *)
    | Some d =>
        let d1 := after title d in
        let document2 := remove_path d1 document1 in
        let q2 := shift d1 (after title q) in
        let c2 := shift d1 (after title c) in
        match lookup_path d1 document1,
              lookup_path q2 document2, lookup_path c2 document2 with
        | Some date_node, Some question_node, Some content_node =>
            let '(oq, w1) := cleanup_tree e question_node w in
            match raised oq with
            | Some ex => (Crashed ex, w1)
            | None =>
                let '(oc, w2) := cleanup_tree e content_node w1 in
                match raised oc with
                | Some ex => (Crashed ex, w2)
                | None =>
                    let head_node :=
                      Element "head" ∅
                        (match title_node with Some t => [t] | None => [] end
                         ++ [Element "meta" {[ "charset" := "utf-8" ]} [];
                             Element "style" {[ "type" := "text/css" ]} [Text css]]) in
                    let body_node :=
                      Element "body" ∅
                        [Element "div" ∅ (appended oq);
                         Element "p" {[ "style" := "text-align: center;" ]}
                                 [Text fleuron];
                         Element "div" ∅ (appended oc);
                         date_node] in
                    (Written (Element "html" ∅ [head_node; body_node]), w2)
                end
            end
        | _, _, _ => (Unmodelled, w)
        end
    end.

(** [get_title_node(document)]: the first [title] element, if any. *)
Definition get_title_node (document : node) : option path :=
  head (element_paths "title" document).

(** The loop body, lines 303-426, for a file that parses to
    [page] ([None]: the file could not be read).  [unwritable] says
    whether opening the output file fails. *)
Definition process_file (e : env) (origin : Z) (unwritable : string -> bool)
           (filename : string) (page : option node) (w : world)
  : file_outcome * world :=
  let w := print ("Filename: " +:+ filename) w in
  match page with
  | None => (Unreadable, w)
  | Some document0 =>
      let title := get_title_node document0 in
      let w :=
        log_if_v e ("Title: "
                    +:+ match title ≫= fun t => lookup_path t document0 with
                        | Some t => get_text_content t
                        | None => "(could not be determined)"
                        end) w in
      let '(document, r) := scan origin document0 in
      match answer_node r, post_node r with
      | None, None => not_located w
      | _, _ =>
          match question_node r with
          | None => not_located w
          | Some q =>
              let c :=
                match post_node r with
                | Some p => p
                | None => default [] (answer_node r)
                end in
              match assemble e document title q c (date_node r) w with
              | (Written new_page, w') =>
                  if unwritable filename
                  then (Unwritable,
                        print ("[ERROR] Failed to save to file " +:+ filename) w')
                  else (Written new_page, w')
              | other => other
              end
          end
      end
  end.

(** How a run ended. *)
Record run_result : Type := {
  exit_status : option Z;             (* [None]: the model gave up *)
  written : list (string * node);     (* the pages saved, oldest first *)
  final : world
}.

(** Lines 302-428: the loop over the files, in order.  An exception
    that leaves the body ends the interpreter with status 1. *)
Fixpoint run_files (e : env) (origin : Z) (unwritable : string -> bool)
         (inputs : list (string * option node))
         (saved : list (string * node)) (w : world) : run_result :=
  match inputs with
  | [] => {| exit_status := Some 0; written := saved; final := print "Done" w |}
  | (filename, page) :: rest =>
      match process_file e origin unwritable filename page w with
      | (Crashed _, w') =>
          {| exit_status := Some 1; written := saved; final := w' |}
      | (Unmodelled, w') =>
          {| exit_status := None; written := saved; final := w' |}
      | (Written new_page, w') =>
          run_files e origin unwritable rest (saved ++ [(filename, new_page)]) w'
      | (_, w') => run_files e origin unwritable rest saved w'
      end
  end.

(** Lines 286-428, for the sorted [.html] files of the input
    directory, with an output directory that exists or can be created.
    With no file the program ends with status 1. *)
Definition main (e : env) (origin : Z) (unwritable : string -> bool)
           (inputs : list (string * option node)) (w : world) : run_result :=
  match inputs with
  | [] => {| exit_status := Some 1; written := []; final := w |}
  | _ =>
      run_files e origin unwritable inputs []
        (print ("Found " +:+ of_Z (Z.of_nat (length inputs)) +:+ " answers") w)
  end.

End PageAssembler.


(** ** Notions used to state the properties *)

Module Notions.
Import Str Dom ImageLocalizer TreeRewriter PageAssembler.

(** The shape of a subtree: tag names, text and the order of the
    children, without the attributes. *)
#[warnings="-register-all"]
Inductive shape : Type :=
| TextShape (data : string)
| OtherShape
| ElementShape (tag : string) (kids : list shape).

Fixpoint shape_of (n : node) : shape :=
  match n with
  | Text d => TextShape d
  | Comment _ => OtherShape
  | Element t _ kids => ElementShape t (map shape_of kids)
  end.

(** A subtree of text nodes and pass-through tags only.  [br] and [hr]
    are void elements: the HTML parser gives them no children. *)
Fixpoint plain (n : node) : bool :=
  match n with
  | Text _ => true
  | Comment _ => false
  | Element t _ kids =>
      if mem t void_tags then match kids with [] => true | _ => false end
      else mem t pass_through_tags && forallb plain kids
  end.

(** [p] holds of [n] and of every node below it. *)
Fixpoint all_nodes (p : node -> bool) (n : node) : bool :=
  p n && match n with
         | Element _ _ kids => forallb (all_nodes p) kids
         | _ => true
         end.

(** The child takes one of the two title branches. *)
Definition is_title (n : node) : bool :=
  match classify n with
  | RQuestionTitle | RPostTitle => true
  | _ => false
  end.

(** [unlinked after before]: [after] is [before] with some of the
    children that take a title branch unlinked, at any depth, and
    nothing else changed. *)
Inductive unlinked : node -> node -> Prop :=
| unlinked_text d : unlinked (Text d) (Text d)
| unlinked_comment d : unlinked (Comment d) (Comment d)
| unlinked_element t a kids' kids :
    unlinked_list kids' kids ->
    unlinked (Element t a kids') (Element t a kids)
with unlinked_list : list node -> list node -> Prop :=
| unlinked_nil : unlinked_list [] []
| unlinked_keep c' c l' l :
    unlinked c' c -> unlinked_list l' l -> unlinked_list (c' :: l') (c :: l)
| unlinked_drop c l' l :
    is_title c = true -> unlinked_list l' l -> unlinked_list l' (c :: l).

(** The branches that call [cleanup_tree] on the child. *)
Definition recursed (r : rule) : bool :=
  match r with
  | RPass | RUnwrap | RLink => true
  | _ => false
  end.

(** A run of the loop over the children of [n] that nothing interrupts
    dispatches some node to a title branch: the loop reaches the
    children of [n] and, through the branches that recurse, the
    children of a child it reaches; it does not reach the sibling that
    follows a title. *)
Fixpoint meets_title (n : node) : bool :=
  match n with
  | Element _ _ kids =>
      (fix go (l : list node) : bool :=
         match l with
         | [] => false
         | c :: rest =>
             is_title c
             || (recursed (classify c) && meets_title c)
             || go rest
         end) kids
  | _ => false
  end.

(** [rewritten done before after moved]: what a run of the loop over
    the children [before] makes of them.  [after] is the child list it
    leaves, [moved] the children it dispatched to a title branch, in
    order, and [done] tells whether the run reached the end of the
    list ([false]: an exception stopped it at some child, or inside a
    child it had recursed into). *)
Inductive rewritten : bool -> list node -> list node -> list node -> Prop :=
| rewritten_nil : rewritten true [] [] []
| rewritten_title_last c :
    is_title c = true ->
    rewritten true [c] [] [c]
| rewritten_title done c passed_over rest rest' moved :
    is_title c = true ->
    rewritten done rest rest' moved ->
    rewritten done (c :: passed_over :: rest) (passed_over :: rest') (c :: moved)
| rewritten_leaf done c rest rest' moved :
    is_title c = false -> recursed (classify c) = false ->
    rewritten done rest rest' moved ->
    rewritten done (c :: rest) (c :: rest') moved
| rewritten_below done t a kids kids' below rest rest' moved :
    recursed (classify (Element t a kids)) = true ->
    rewritten true kids kids' below ->
    rewritten done rest rest' moved ->
    rewritten done (Element t a kids :: rest) (Element t a kids' :: rest') moved
| rewritten_stop c rest :
    is_title c = false -> recursed (classify c) = false ->
    rewritten false (c :: rest) (c :: rest) []
| rewritten_stop_below t a kids kids' below rest :
    recursed (classify (Element t a kids)) = true ->
    rewritten false kids kids' below ->
    rewritten false (Element t a kids :: rest) (Element t a kids' :: rest) [].

(** The run reached the end of the child list: no exception left it. *)
Definition completed (o : outcome) : bool :=
  match raised o with None => true | Some _ => false end.

(** The node a title branch appends for the child [c]. *)
Definition h1_of (c : node) : node := Element "h1" ∅ [c].

(** [meets_title] for a list of children. *)
Definition meets_title_in (l : list node) : bool :=
  meets_title (Element "" ∅ l).

(** The node at which the inline-code branch looks for its [span], the
    first child of the first child, is an element. *)
Definition probe_is_element (n : node) : bool :=
  match firstChild n ≫= firstChild with
  | Some (Element _ _ _) => true
  | _ => false
  end.

(** A node that is a text node or an element, and whose probe is an
    element if it takes the inline-code branch. *)
Definition guarded (n : node) : bool :=
  match classify n with
  | RNonElement => false
  | RInlineCode => probe_is_element n
  | _ => true
  end.

(** The exception classes the [except] clauses of the image branch
    name. *)
Definition handled (ex : exn) : bool :=
  match ex with
  | URLError | OSError _ | ValueError _ => true
  | _ => false
  end.

(** Images are not downloaded, or a failing fetch raises one of the
    exceptions the image branch handles. *)
Definition fetch_failures_handled (e : env) : Prop :=
  no_download e = true
  \/ forall url ex, urlopen e url = inl ex -> handled ex = true.

(** A sample environment: downloads enabled, a network that serves
    every URL, an operating system that never fails, and a parser that
    answers with a page holding one [iframe]. *)
Definition sample_env : env :=
  {| no_download := false; verbose := false; output_dir := "out";
     urlopen := fun url => inr ("image at " +:+ url);
     open_errno := fun _ => None;
     write_errno := fun _ => None;
     remove_fails := fun _ => false;
     parse := fun _ =>
       Element "html" ∅
         [Element "head" ∅ [];
          Element "body" ∅
            [Element "iframe" {[ "src" := "//www.youtube.com/embed/x" ]} []]] |}.

Definition empty_world : world :=
  {| files := ∅; fetched := []; stderr := [] |}.

End Notions.

(** ** Further notions: character classes, effects, sample pages *)

Module MoreNotions.
Import Str Dom DateResolver ImageLocalizer TreeRewriter PageAssembler Notions.

(** Every character of [s] satisfies [p]. *)
Fixpoint all_chars (p : ascii -> bool) (s : string) : bool :=
  match s with
  | EmptyString => true
  | String c r => p c && all_chars p r
  end.

(** A non-empty string of decimal digits. *)
Definition numeral (s : string) : bool :=
  negb (String.eqb s "") && all_chars is_digit s.

(** An instant that [time.gmtime] accepts on every platform: a
    non-negative number of seconds that fits a signed 32-bit [time_t].
    Outside the platform's range [time.gmtime] raises [OverflowError]
    or [OSError], which [Time.gmtime] does not model. *)
Definition representable (t : Z) : Prop := 0 <= t < 2 ^ 31.

(** The longest digit string [int] converts without raising
    [ValueError], by the interpreter's default limit. *)
Definition int_max_str_digits : nat := 4300.

(** How many of the seven patterns of [parse_quora_date] match. *)
Definition forms_matched (s : string) : nat :=
  Nat.b2n (m0 s) + Nat.b2n (bool_decide (is_Some (m1 s)))
  + Nat.b2n (bool_decide (is_Some (m2 s)))
  + Nat.b2n (bool_decide (is_Some (m3 s)))
  + Nat.b2n (bool_decide (is_Some (m4 s)))
  + Nat.b2n (bool_decide (is_Some (m5 s)))
  + Nat.b2n (m6 s).

(** A code-block table as Quora lays it out: one [div] per line, and in
    it one [span] per highlighted piece of text. *)
Definition code_span (piece : gmap string string * string) : node :=
  Element "span" piece.1 [Text piece.2].

Definition code_line (line : gmap string string * list (gmap string string * string))
  : node :=
  Element "div" line.1 (map code_span line.2).

Definition line_text (line : gmap string string * list (gmap string string * string))
  : string :=
  join "" (map snd line.2).

(** Every file of [w] is still there in [w'], with the same bytes. *)
Definition keeps_files (w w' : world) : Prop :=
  forall p content, files w !! p = Some content -> files w' !! p = Some content.

(** A line the rewriter may print: a warning, or with [--verbose] a
    debug line of [log_if_v]. *)
Definition log_line (e : env) (line : string) : bool :=
  String.prefix "[WARNING]" line
  || (verbose e && String.prefix "[DEBUG]" line).

(** From [w] to [w'] the error stream grew by log lines and the fetch
    log by some URLs; nothing was taken from either. *)
Definition only_logs (e : env) (w w' : world) : Prop :=
  (exists lines, stderr w' = stderr w ++ lines
                 /\ forallb (log_line e) lines = true)
  /\ exists urls, fetched w' = fetched w ++ urls.

(** The sample environment with a network that fails on every URL. *)
Definition offline_env : env :=
  {| no_download := false; verbose := true; output_dir := "out";
     urlopen := fun _ => inl URLError;
     open_errno := fun _ => None;
     write_errno := fun _ => None;
     remove_fails := fun _ => false;
     parse := parse sample_env |}.

(** The sample environment run with [--no_download]. *)
Definition no_download_env : env :=
  {| no_download := true; verbose := false; output_dir := "out";
     urlopen := urlopen sample_env;
     open_errno := fun _ => None;
     write_errno := fun _ => None;
     remove_fails := fun _ => false;
     parse := parse sample_env |}.

(** A complete answer page, and the same page without its footer. *)
Definition answer_page : node :=
  Element "html" ∅
    [Element "head" ∅ [Element "title" ∅ [Text "Why?"]];
     Element "body" ∅
       [Element "div" {[ "class" := "ans_page_question_header" ]} [Text "Why?"];
        Element "div" {[ "class" := "ExpandedAnswer" ]} [Text "Because."];
        Element "div" {[ "class" := "CredibilityFacts" ]}
          [Element "a" ∅ [Text "Answered 3h ago"]]]].

Definition footless_page : node :=
  Element "html" ∅
    [Element "head" ∅ [Element "title" ∅ [Text "Why?"]];
     Element "body" ∅
       [Element "div" {[ "class" := "ans_page_question_header" ]} [Text "Why?"];
        Element "div" {[ "class" := "ExpandedAnswer" ]} [Text "Because."]]].


End MoreNotions.

(** * Properties *)

(** ** DateResolver *)

Module DateResolverFacts.
Import Str Time DateResolver.

Example gmtime_epoch :
  gmtime 0
  = {| tm_year := 1970; tm_mon := 1; tm_mday := 1;
       tm_hour := 0; tm_min := 0; tm_sec := 0; tm_wday := 3 |}.
Proof. reflexivity. Qed.

Example gmtime_leap_day :
  gmtime 1456790399
  = {| tm_year := 2016; tm_mon := 2; tm_mday := 29;
       tm_hour := 23; tm_min := 59; tm_sec := 59; tm_wday := 0 |}.
Proof. reflexivity. Qed.

Example gmtime_before_epoch :
  gmtime (-1)
  = {| tm_year := 1969; tm_mon := 12; tm_mday := 31;
       tm_hour := 23; tm_min := 59; tm_sec := 59; tm_wday := 2 |}.
Proof. reflexivity. Qed.

Example gmtime_origin_of_examples :
  gmtime 1422748800
  = {| tm_year := 2015; tm_mon := 2; tm_mday := 1;
       tm_hour := 0; tm_min := 0; tm_sec := 0; tm_wday := 6 |}.
Proof. reflexivity. Qed.

Lemma gmtime_wday secs : tm_wday (gmtime secs) = wday_of_day (day_of secs).
Proof.
  unfold gmtime. destruct (civil_of_day (day_of secs)) as [[y m] md].
  reflexivity.
Qed.

Lemma day_of_back origin k : day_of (origin - 86400 * k) = day_of origin - k.
Proof.
  unfold day_of.
  replace (origin - 86400 * k) with (origin + (- k) * 86400) by lia.
  rewrite Z.div_add by lia. lia.
Qed.

Lemma wday_back origin k :
  tm_wday (gmtime (origin - 86400 * k)) = (day_of origin - k + 3) mod 7.
Proof. rewrite gmtime_wday, day_of_back. reflexivity. Qed.

(** The weekday comes round within any seven consecutive days. *)
Lemma weekday_within_a_week (d idx : Z) :
  0 <= idx < 7 ->
  exists k, 1 <= k <= 7 /\ (d - k + 3) mod 7 = idx.
Proof.
  intros Hidx. exists ((d + 2 - idx) mod 7 + 1). split.
  - pose proof (Z.mod_pos_bound (d + 2 - idx) 7). lia.
  - Z.div_mod_to_equations. lia.
Qed.

(** The walk stops at the first offset that hits, when there is one
    among the offsets it tries. *)
Lemma walk_back_first origin hit n : forall offset k,
  offset <= k < offset + Z.of_nat n ->
  hit (gmtime (origin - 86400 * k)) = true ->
  (forall j, offset <= j < k -> hit (gmtime (origin - 86400 * j)) = false) ->
  walk_back origin hit offset n = Some (gmtime (origin - 86400 * k)).
Proof.
  induction n as [|n IH]; intros offset k Hk Hhit Hmiss; [lia|].
  cbn [walk_back]. destruct (Z.eq_dec k offset) as [->|Hne].
  - rewrite Hhit. reflexivity.
  - rewrite (Hmiss offset) by lia.
    apply IH; [lia | exact Hhit | intros j Hj; apply Hmiss; lia].
Qed.

(** Among the offsets [lo .. hi] there is a least one with a decidable
    property that holds at [hi]. *)
Lemma least_offset (P : Z -> bool) (lo hi : Z) :
  lo <= hi -> P hi = true ->
  exists k, lo <= k <= hi /\ P k = true
            /\ forall j, lo <= j < k -> P j = false.
Proof.
  intros Hle Hhi.
  remember (Z.to_nat (hi - lo)) as n eqn:Hn.
  revert lo Hle Hn. induction n as [|n IH]; intros lo Hle Hn.
  - exists hi. replace lo with hi by lia. repeat split; [lia..|exact Hhi|lia].
  - destruct (P lo) eqn:Hlo.
    + exists lo. repeat split; [lia..|exact Hlo|lia].
    + destruct (IH (lo + 1)) as (k & Hk & Hpk & Hmin); [lia..|].
      exists k. repeat split; [lia..|exact Hpk|].
      intros j Hj. destruct (Z.eq_dec j lo) as [->|]; [exact Hlo|].
      apply Hmin. lia.
Qed.

Lemma index_of_weekday d idx :
  index_of d days_of_week = Some idx ->
  0 <= idx < 7 /\ m3 d = Some d /\ m0 d = false /\ m6 d = false
  /\ m1 d = None /\ m2 d = None.
Proof.
  intros H. unfold days_of_week in H. cbn [index_of] in H.
  let day n :=
    destruct (String.eqb_spec d n) as [->|_];
    [cbn in H; injection H as <-; vm_compute; repeat split; congruence|] in
  day "Mon"; day "Tue"; day "Wed"; day "Thu"; day "Fri"; day "Sat";
  day "Sun".
  cbn in H. discriminate.
Qed.

Lemma render_month_after tm :
  1 <= tm_mon tm <= 11 ->
  exists mon, months_of_year !! Z.to_nat (tm_mon tm) = Some mon
    /\ render tm = Ok (mon +:+ " " +:+ of_Z (tm_mday tm) +:+ ", "
                       +:+ of_Z (tm_year tm)).
Proof.
  intros H. unfold render.
  assert (Hc : tm_mon tm = 1 \/ tm_mon tm = 2 \/ tm_mon tm = 3
               \/ tm_mon tm = 4 \/ tm_mon tm = 5 \/ tm_mon tm = 6
               \/ tm_mon tm = 7 \/ tm_mon tm = 8 \/ tm_mon tm = 9
               \/ tm_mon tm = 10 \/ tm_mon tm = 11) by lia.
  repeat (destruct Hc as [Hc|Hc]; [rewrite Hc; eexists; split; reflexivity|]).
  rewrite Hc; eexists; split; reflexivity.
Qed.

Lemma render_december tm : tm_mon tm = 12 -> render tm = Raise IndexError.
Proof. intros H. unfold render. rewrite H. reflexivity. Qed.

(** The calendar fields of [gmtime] are in range. *)
Lemma civil_of_day_range d :
  let '(y, m, md) := civil_of_day d in 1 <= m <= 12 /\ 1 <= md <= 31.
Proof.
  unfold civil_of_day.
  set (z := d + 719468). set (era := z / 146097).
  set (doe := z - era * 146097).
  assert (Hdoe : 0 <= doe <= 146096)
    by (unfold doe, era; Z.div_mod_to_equations; lia).
  clearbody doe. clear era z.
  set (yoe := (doe - doe / 1460 + doe / 36524 - doe / 146096) / 365).
  set (doy := doe - (365 * yoe + yoe / 4 - yoe / 100)).
  assert (Hdoy : 0 <= doy <= 365)
    by (unfold doy, yoe; Z.div_mod_to_equations; lia).
  clearbody doy.
  set (mp := (5 * doy + 2) / 153).
  assert (Hmp : 0 <= mp <= 11) by (unfold mp; Z.div_mod_to_equations; lia).
  assert (Hday : 1 <= doy - (153 * mp + 2) / 5 + 1 <= 31)
    by (unfold mp; Z.div_mod_to_equations; lia).
  clearbody mp.
  destruct (mp <? 10) eqn:E; [apply Z.ltb_lt in E | apply Z.ltb_ge in E]; lia.
Qed.

Lemma gmtime_mon_range secs : 1 <= tm_mon (gmtime secs) <= 12.
Proof.
  unfold gmtime. pose proof (civil_of_day_range (day_of secs)) as H.
  destruct (civil_of_day (day_of secs)) as [[y m] md]. apply H.
Qed.

(** Whatever instant is rendered, the text does not start with the
    name of its month: it starts with the name of the next month, or
    there is no text at all. *)
Lemma render_misnames_month secs mon :
  months_of_year !! Z.to_nat (tm_mon (gmtime secs) - 1) = Some mon ->
  forall rest, render (gmtime secs) <> Ok (mon +:+ rest).
Proof.
  pose proof (gmtime_mon_range secs) as Hr.
  set (tm := gmtime secs) in *. clearbody tm.
  assert (Hc : tm_mon tm = 1 \/ tm_mon tm = 2 \/ tm_mon tm = 3
               \/ tm_mon tm = 4 \/ tm_mon tm = 5 \/ tm_mon tm = 6
               \/ tm_mon tm = 7 \/ tm_mon tm = 8 \/ tm_mon tm = 9
               \/ tm_mon tm = 10 \/ tm_mon tm = 11 \/ tm_mon tm = 12) by lia.
  unfold render.
  repeat (destruct Hc as [Hc|Hc];
          [rewrite Hc; intros [= <-] rest; cbn [rbind subscript]; discriminate|]).
  rewrite Hc. intros _ rest. discriminate.
Qed.

End DateResolverFacts.

Module DateResolverClaims.
Import Str Time DateResolver DateResolverFacts.

(** C1.  With origin 2015-02-01T00:00:00Z the input ["3h ago"]
    denotes 2015-01-31, and [parse_quora_date] renders it as
    ["Feb 31, 2015"]: the month name is read from [months_of_year] at
    [tm_mon], which counts from 1, so the name of the following month
    is printed.  The rendering the specification asks for is
    ["Jan 31, 2015"]. *)
Theorem three_hours_ago_names_february :
  let tm := gmtime (1422748800 - 3600 * 3) in
  resolve_tm 1422748800 "3h ago" = Ok tm
  /\ (tm_year tm, tm_mon tm, tm_mday tm) = (2015, 1, 31)
  /\ subscript months_of_year (tm_mon tm - 1) = Ok "Jan"
  /\ parse_quora_date 1422748800 "3h ago" = Ok "Feb 31, 2015".
Proof. vm_compute. repeat split. Qed.

(** The walk of the weekday branch, for a bare weekday name and any
    origin: it stops at an offset [k] between 1 and 7; the [else]
    branch of the loop, which raises "is invalid", is not taken; the
    day it stops at has the weekday asked for and is the latest such
    day before the day of the origin; what the function returns is
    what line 80 makes of that day. *)
Theorem weekday_walk_reaches_latest_earlier_day
        (origin : Z) (d : string) (idx : Z) :
  index_of d days_of_week = Some idx ->
  exists k,
    1 <= k <= 7
    /\ walk_back origin (fun tm => tm_wday tm =? idx) 1 7
       = Some (gmtime (origin - 86400 * k))
    /\ resolve_tm origin d = Ok (gmtime (origin - 86400 * k))
    /\ resolve_tm origin d <> Raise (invalid d)
    /\ parse_quora_date origin d = render (gmtime (origin - 86400 * k))
    /\ day_of (origin - 86400 * k) = day_of origin - k
    /\ tm_wday (gmtime (origin - 86400 * k)) = idx
    /\ forall day, day < day_of origin -> wday_of_day day = idx ->
                   day <= day_of origin - k.
Proof.
  intros Hd.
  destruct (index_of_weekday d idx Hd) as (Hidx & H3 & H0 & H6 & H1 & H2).
  destruct (weekday_within_a_week (day_of origin) idx Hidx) as (k7 & Hk7 & Hhit7).
  destruct (least_offset
              (fun k => tm_wday (gmtime (origin - 86400 * k)) =? idx) 1 k7)
    as (k & Hk & Hhit & Hmin); [lia | |].
  { rewrite wday_back. apply Z.eqb_eq. exact Hhit7. }
  assert (Hwalk : walk_back origin (fun tm => tm_wday tm =? idx) 1 7
                  = Some (gmtime (origin - 86400 * k))).
  { apply walk_back_first; [lia | exact Hhit | exact Hmin]. }
  assert (Hres : resolve_tm origin d = Ok (gmtime (origin - 86400 * k))).
  { unfold resolve_tm. rewrite H0, H6, H1, H2, H3, Hd. cbn [orb default]. unfold id.
    rewrite Hwalk. reflexivity. }
  exists k. split; [lia|]. split; [exact Hwalk|]. split; [exact Hres|].
  split; [rewrite Hres; discriminate|].
  split; [unfold parse_quora_date; rewrite Hres; reflexivity|].
  split; [apply day_of_back|].
  split; [apply Z.eqb_eq; exact Hhit|].
  intros day Hlt Hw.
  destruct (Z_le_gt_dec day (day_of origin - k)) as [Hle|Hgt]; [exact Hle|].
  exfalso.
  specialize (Hmin (day_of origin - day) ltac:(lia)).
  rewrite wday_back in Hmin. apply Z.eqb_neq in Hmin. apply Hmin.
  replace (day_of origin - (day_of origin - day)) with day by lia.
  exact Hw.
Qed.

Lemma weekday_walk_reaches_latest_earlier_day_witness :
  index_of "Tue" days_of_week = Some 1
  /\ exists k,
       1 <= k <= 7
       /\ walk_back 1422748800 (fun tm => tm_wday tm =? 1) 1 7
          = Some (gmtime (1422748800 - 86400 * k))
       /\ resolve_tm 1422748800 "Tue" = Ok (gmtime (1422748800 - 86400 * k))
       /\ resolve_tm 1422748800 "Tue" <> Raise (invalid "Tue")
       /\ parse_quora_date 1422748800 "Tue"
          = render (gmtime (1422748800 - 86400 * k))
       /\ day_of (1422748800 - 86400 * k) = day_of 1422748800 - k
       /\ tm_wday (gmtime (1422748800 - 86400 * k)) = 1
       /\ forall day, day < day_of 1422748800 -> wday_of_day day = 1 ->
                      day <= day_of 1422748800 - k.
Proof.
  split; [reflexivity|].
  apply (weekday_walk_reaches_latest_earlier_day 1422748800 "Tue" 1).
  reflexivity.
Defined.

(** C7.  With origin 2015-02-01T00:00:00Z, a Sunday, the input ["Tue"]
    makes the walk stop at offset 5, on Tuesday 2015-01-27, the latest
    Tuesday before the origin; the date the function returns for it is
    ["Feb 27, 2015"], since line 80 reads the month name at [tm_mon].
    With origin 2015-01-05T00:00:00Z the walk stops on Tuesday
    2014-12-30 and the function raises [IndexError] instead of
    returning a date.  The date the specification asks for is that of
    the day the walk reaches: ["Jan 27, 2015"] and ["Dec 30, 2014"]. *)
Theorem weekday_date_names_next_month :
  let tm := gmtime (1422748800 - 86400 * 5) in
  let tm' := gmtime (1420416000 - 86400 * 6) in
  resolve_tm 1422748800 "Tue" = Ok tm
  /\ (tm_year tm, tm_mon tm, tm_mday tm, tm_wday tm) = (2015, 1, 27, 1)
  /\ subscript months_of_year (tm_mon tm - 1) = Ok "Jan"
  /\ parse_quora_date 1422748800 "Tue" = Ok "Feb 27, 2015"
  /\ resolve_tm 1420416000 "Tue" = Ok tm'
  /\ (tm_year tm', tm_mon tm', tm_mday tm', tm_wday tm') = (2014, 12, 30, 1)
  /\ parse_quora_date 1420416000 "Tue" = Raise IndexError.
Proof. vm_compute. repeat split. Qed.

End DateResolverClaims.

(** ** Facts about the string primitives *)

Module StrFacts.
Import Str.

Lemma app_nil b : "" +:+ b = b.
Proof. reflexivity. Qed.

Lemma app_cons c a b : String c a +:+ b = String c (a +:+ b).
Proof. reflexivity. Qed.

Lemma length_app a b :
  String.length (a +:+ b) = (String.length a + String.length b)%nat.
Proof.
  induction a as [|c a IH]; [reflexivity|].
  rewrite app_cons. cbn [String.length]. rewrite IH. reflexivity.
Qed.

Lemma app_assoc a b c : (a +:+ b) +:+ c = a +:+ (b +:+ c).
Proof.
  induction a as [|x a IH]; [reflexivity|].
  rewrite !app_cons, IH. reflexivity.
Qed.

Lemma app_empty_r a : a +:+ "" = a.
Proof.
  induction a as [|x a IH]; [reflexivity|]. rewrite app_cons, IH. reflexivity.
Qed.

Lemma drop_app p x n : drop (String.length p + n) (p +:+ x) = drop n x.
Proof.
  induction p as [|c p IH]; [reflexivity|].
  rewrite app_cons. cbn [String.length drop Nat.add]. exact IH.
Qed.

Lemma drop_split n s : exists p, s = p +:+ drop n s.
Proof.
  revert s. induction n as [|n IH]; intros s.
  - exists "". reflexivity.
  - destruct s as [|c s]; [exists ""; reflexivity|].
    destruct (IH s) as [p Hp]. exists (String c p).
    rewrite app_cons. cbn [drop]. rewrite <- Hp. reflexivity.
Qed.

Lemma endswith_inv suf s : endswith suf s = true -> exists p, s = p +:+ suf.
Proof.
  unfold endswith. intros H. apply andb_true_iff in H as [_ H].
  apply String.eqb_eq in H.
  destruct (drop_split (String.length s - String.length suf) s) as [p Hp].
  exists p. rewrite H in Hp. exact Hp.
Qed.

Lemma endswith_app_r suf p x :
  (String.length suf <= String.length x)%nat ->
  endswith suf (p +:+ x) = endswith suf x.
Proof.
  intros Hle. unfold endswith. rewrite length_app.
  replace (String.length p + String.length x - String.length suf)%nat
    with (String.length p + (String.length x - String.length suf))%nat by lia.
  rewrite drop_app.
  replace (String.length suf <=? String.length p + String.length x)%nat
    with true by (symmetry; apply Nat.leb_le; lia).
  replace (String.length suf <=? String.length x)%nat
    with true by (symmetry; apply Nat.leb_le; lia).
  reflexivity.
Qed.

Lemma endswith_app suf p : endswith suf (p +:+ suf) = true.
Proof.
  rewrite endswith_app_r by lia. unfold endswith.
  rewrite Nat.sub_diag, Nat.leb_refl. cbn [drop andb].
  apply String.eqb_refl.
Qed.

Lemma prefix_app p r : String.prefix p (p +:+ r) = true.
Proof.
  induction p as [|c p IH]; [destruct r; reflexivity|].
  rewrite app_cons. cbn [String.prefix].
  destruct (ascii_dec c c); [exact IH | congruence].
Qed.

Lemma prefix_inv p s : String.prefix p s = true -> exists r, s = p +:+ r.
Proof.
  revert s. induction p as [|c p IH]; intros s H.
  - exists s. reflexivity.
  - destruct s as [|x s]; [discriminate|]. cbn [String.prefix] in H.
    destruct (ascii_dec c x) as [->|]; [|discriminate].
    destruct (IH s H) as [r ->]. exists r. reflexivity.
Qed.

Lemma contains_prefix sub s : String.prefix sub s = true -> contains sub s = true.
Proof. intros H. destruct s; cbn [contains]; rewrite H; reflexivity. Qed.

(** [sub in s] holds exactly when [s] is [a + sub + b]. *)
Lemma contains_intro sub a b : contains sub (a +:+ sub +:+ b) = true.
Proof.
  induction a as [|c a IH].
  - rewrite app_nil. apply contains_prefix, prefix_app.
  - rewrite app_cons. cbn [contains]. rewrite IH. apply orb_true_r.
Qed.

Lemma contains_inv sub s :
  contains sub s = true -> exists a b, s = a +:+ sub +:+ b.
Proof.
  induction s as [|c s IH]; cbn [contains]; intros H.
  - rewrite orb_false_r in H. destruct (prefix_inv _ _ H) as [r Hr].
    exists "", r. exact Hr.
  - apply orb_true_iff in H as [H|H].
    + destruct (prefix_inv _ _ H) as [r Hr]. exists "", r. exact Hr.
    + destruct (IH H) as (a & b & ->). exists (String c a), b. reflexivity.
Qed.

Lemma in_flush t cur toks : In t (flush cur toks) -> t = cur \/ In t toks.
Proof.
  destruct cur; cbn [flush]; [right; assumption|].
  intros [<-|H]; [left; reflexivity | right; exact H].
Qed.

(** Every token of [s.split()] occurs in [s]. *)
Lemma split_from_occurs s : forall cur toks,
  split_from s = (cur, toks) ->
  (exists b, s = cur +:+ b)
  /\ forall t, In t toks -> exists a b, s = a +:+ t +:+ b.
Proof.
  induction s as [|c s IH]; intros cur toks H; cbn [split_from] in H.
  - injection H as <- <-. split; [exists ""; reflexivity|intros t []].
  - destruct (split_from s) as [cur0 toks0] eqn:E.
    destruct (IH _ _ eq_refl) as [[b0 Hb0] Htoks].
    destruct (is_space c); injection H as <- <-.
    + split; [exists (String c s); reflexivity|].
      intros t Ht. destruct (in_flush _ _ _ Ht) as [->|Hin].
      * exists (String c ""), b0. rewrite app_cons, app_nil, <- Hb0.
        reflexivity.
      * destruct (Htoks t Hin) as (a & b & ->).
        exists (String c a), b. reflexivity.
    + split; [exists b0; rewrite app_cons, <- Hb0; reflexivity|].
      intros t Hin. destruct (Htoks t Hin) as (a & b & ->).
      exists (String c a), b. reflexivity.
Qed.

Lemma token_is_substring t s : In t (split s) -> contains t s = true.
Proof.
  unfold split. destruct (split_from s) as [cur toks] eqn:E.
  destruct (split_from_occurs s cur toks E) as [[b Hb] Htoks].
  intros Hin. destruct (in_flush _ _ _ Hin) as [->|H].
  - rewrite Hb. apply (contains_intro cur "" b).
  - destruct (Htoks t H) as (a & b' & ->). apply contains_intro.
Qed.

End StrFacts.

(** ** ImageLocalizer *)

Module ImageLocalizerFacts.
Import Str StrFacts ImageLocalizer.

Lemma files_log_if_v e msg w : files (log_if_v e msg w) = files w.
Proof. unfold log_if_v. destruct (verbose e); reflexivity. Qed.

Lemma fetched_log_if_v e msg w : fetched (log_if_v e msg w) = fetched w.
Proof. unfold log_if_v. destruct (verbose e); reflexivity. Qed.

Lemma span_app p s : forall a b, span p s = (a, b) -> s = a +:+ b.
Proof.
  induction s as [|c s IH]; intros a b H; cbn [span] in H.
  - injection H as <- <-. reflexivity.
  - destruct (p c).
    + destruct (span p s) as [a0 b0]. injection H as <- <-.
      rewrite app_cons, <- (IH a0 b0 eq_refl). reflexivity.
    + injection H as <- <-. reflexivity.
Qed.

(** The segment found follows a slash in the URL and is followed by a
    question mark or by nothing. *)
Lemma url_segment_sound src seg :
  url_segment src = Some seg ->
  seg <> ""
  /\ exists a b, src = a +:+ "/" +:+ seg +:+ b
                 /\ (b = "" \/ exists b', b = String "?" b').
Proof.
  induction src as [|c r IH]; cbn [url_segment]; [discriminate|].
  assert (Hrec : url_segment r = Some seg ->
                 seg <> ""
                 /\ exists a b, String c r = a +:+ "/" +:+ seg +:+ b
                                /\ (b = "" \/ exists b', b = String "?" b')).
  { intros H. destruct (IH H) as (Hne & a & b & -> & Hb).
    split; [exact Hne|]. exists (String c a), b. split; [reflexivity|exact Hb]. }
  destruct (Ascii.eqb_spec c "/") as [->|_]; [|exact Hrec].
  destruct (span not_sep r) as [run tail] eqn:E.
  pose proof (span_app _ _ _ _ E) as Hr.
  destruct run as [|a run]; [exact Hrec|].
  destruct tail as [|q tail].
  - intros [= <-]. split; [discriminate|].
    exists "", "". split; [|left; reflexivity].
    rewrite Hr, app_nil. reflexivity.
  - destruct (Ascii.eqb_spec q "?") as [->|_]; [|exact Hrec].
    intros [= <-]. split; [discriminate|].
    exists "", (String "?" tail). split; [|right; eexists; reflexivity].
    rewrite Hr, app_nil. reflexivity.
Qed.

End ImageLocalizerFacts.

Module ImageLocalizerClaims.
Import Str StrFacts ImageLocalizer ImageLocalizerFacts Notions.

(** C10.  The local file name is the segment derived from the URL,
    kept as it is when it ends in [".png"] and with [".png"] appended
    otherwise; a segment that ends in any other extension of four or
    more characters (as ["photo.jpg"] does) gets [".png"] appended
    after it. *)
Theorem png_is_the_only_extension_kept (src seg : string) :
  url_segment src = Some seg ->
  (endswith ".png" seg = true -> derive_filename src = Ok seg)
  /\ (endswith ".png" seg = false ->
      derive_filename src = Ok (seg +:+ ".png"))
  /\ (forall ext, (4 <= String.length ext)%nat ->
                  endswith ".png" ext = false ->
                  endswith ext seg = true ->
                  derive_filename src = Ok (seg +:+ ".png")).
Proof.
  intros Hseg. unfold derive_filename. rewrite Hseg.
  split; [intros ->; reflexivity|].
  split; [intros ->; reflexivity|].
  intros ext Hlen Hext Hend.
  destruct (endswith_inv _ _ Hend) as [p ->].
  rewrite endswith_app_r, Hext by exact Hlen. reflexivity.
Qed.

Lemma png_is_the_only_extension_kept_witness :
  url_segment "http://qph.is.quoracdn.net/main-qimg/photo.jpg"
  = Some "photo.jpg"
  /\ derive_filename "http://qph.is.quoracdn.net/main-qimg/photo.jpg"
     = Ok "photo.jpg.png".
Proof.
  split; [reflexivity|].
  apply (png_is_the_only_extension_kept
           "http://qph.is.quoracdn.net/main-qimg/photo.jpg" "photo.jpg");
    reflexivity.
Defined.

Lemma localize_existing e src filename w :
  derive_filename src = Ok filename ->
  is_Some (files w !! (output_dir e +:+ "/" +:+ filename)) ->
  exists w', localize e src w = (Local filename, w')
             /\ files w' = files w /\ fetched w' = fetched w.
Proof.
  intros Hname [content Hfile]. unfold localize, try_localize.
  rewrite Hname, Hfile. eexists. split; [reflexivity|].
  rewrite files_log_if_v, fetched_log_if_v. split; reflexivity.
Qed.

(** A call that answers with a file name leaves that file in place,
    after at most one fetch. *)
Lemma localize_local_inv e src filename w w1 :
  localize e src w = (Local filename, w1) ->
  derive_filename src = Ok filename
  /\ is_Some (files w1 !! (output_dir e +:+ "/" +:+ filename))
  /\ (fetched w1 = fetched w \/ fetched w1 = fetched w ++ [src]).
Proof.
  unfold localize.
  destruct (try_localize e src w) as [[f|ex] w'] eqn:Ht;
    [|destruct ex; discriminate].
  intros [= -> ->]. revert Ht. unfold try_localize.
  destruct (derive_filename src) as [f|ex]; [|discriminate].
  destruct (files w !! _) as [content|] eqn:Hfile.
  - intros [= -> <-]. rewrite files_log_if_v, fetched_log_if_v, Hfile.
    split; [reflexivity|]. split; [eexists; reflexivity | left; reflexivity].
  - destruct (open_errno e _); [discriminate|]. unfold download.
    destruct (urlopen e src) as [ex|img];
      [destruct (remove_fails e _); discriminate|].
    destruct (write_errno e _);
      [destruct (remove_fails e _); discriminate|].
    intros [= -> <-]. cbn [files fetched set_files fetch].
    rewrite fetched_log_if_v, lookup_insert_eq.
    split; [reflexivity|]. split; [eexists; reflexivity | right; reflexivity].
Qed.

(** C8.  For a URL with a derivable file name.  Whenever a call
    returns a file name, it made at most one fetch and a second call
    returns the same file name without a fetch and without touching
    the files.  When the target file exists, the call returns the file
    name, fetches nothing and leaves every file as it is.  When it
    does not exist and creating, fetching and writing succeed, two
    calls in a row return the same file name and make one fetch in
    all. *)
Theorem localize_at_most_once
        (e : env) (src filename : string) (w : world) :
  derive_filename src = Ok filename ->
  let path := output_dir e +:+ "/" +:+ filename in
  (forall f w1,
      localize e src w = (Local f, w1) ->
      f = filename
      /\ (fetched w1 = fetched w \/ fetched w1 = fetched w ++ [src])
      /\ exists w2, localize e src w1 = (Local f, w2)
                    /\ fetched w2 = fetched w1 /\ files w2 = files w1)
  /\ (is_Some (files w !! path) ->
      exists w', localize e src w = (Local filename, w')
                 /\ files w' = files w /\ fetched w' = fetched w)
  /\ (forall img,
        files w !! path = None -> open_errno e path = None ->
        urlopen e src = inr img -> write_errno e path = None ->
        exists w1 w2,
          localize e src w = (Local filename, w1)
          /\ localize e src w1 = (Local filename, w2)
          /\ fetched w1 = fetched w ++ [src]
          /\ fetched w2 = fetched w ++ [src]
          /\ files w1 !! path = Some img
          /\ files w2 = files w1).
Proof.
  intros Hname path. split; [|split].
  - intros f w1 Hcall.
    destruct (localize_local_inv _ _ _ _ _ Hcall) as (Hf & Hfile & Hfetch).
    assert (f = filename) as -> by congruence.
    split; [reflexivity|]. split; [exact Hfetch|].
    destruct (localize_existing e src filename w1 Hname Hfile)
      as (w2 & Hcall2 & Hfiles2 & Hfetched2).
    exists w2. repeat split; assumption.
  - apply localize_existing. exact Hname.
  - intros img Hfile Hopen Hnet Hwrite.
    assert (H1 : exists w1,
               localize e src w = (Local filename, w1)
               /\ fetched w1 = fetched w ++ [src]
               /\ files w1 !! path = Some img).
    { unfold localize, try_localize, download.
      rewrite Hname. fold path. rewrite Hfile, Hopen, Hnet, Hwrite.
      eexists. split; [reflexivity|]. cbn [fetched files set_files fetch].
      rewrite fetched_log_if_v. split; [reflexivity|].
      apply lookup_insert_eq. }
    destruct H1 as (w1 & Hcall1 & Hfetched1 & Hfile1).
    destruct (localize_existing e src filename w1 Hname)
      as (w2 & Hcall2 & Hfiles2 & Hfetched2);
      [fold path; rewrite Hfile1; eexists; reflexivity|].
    exists w1, w2. repeat split; try assumption. congruence.
Qed.

Lemma localize_at_most_once_witness :
  let src := "http://qph.is.quoracdn.net/main-qimg/photo.jpg" in
  derive_filename src = Ok "photo.jpg.png"
  /\ exists w1 w2,
       localize sample_env src empty_world = (Local "photo.jpg.png", w1)
       /\ localize sample_env src w1 = (Local "photo.jpg.png", w2)
       /\ fetched w1 = fetched empty_world ++ [src]
       /\ fetched w2 = fetched empty_world ++ [src]
       /\ files w1 !! "out/photo.jpg.png" = Some ("image at " +:+ src)
       /\ files w2 = files w1.
Proof.
  split; [reflexivity|].
  apply (proj2 (proj2 (localize_at_most_once
                  sample_env "http://qph.is.quoracdn.net/main-qimg/photo.jpg"
                  "photo.jpg.png" empty_world eq_refl))
               ("image at http://qph.is.quoracdn.net/main-qimg/photo.jpg"));
    reflexivity.
Defined.

End ImageLocalizerClaims.

(** ** TreeRewriter *)

Module TreeRewriterFacts.
Import Str Dom ImageLocalizer TreeRewriter.

Lemma clone_deep_id n : clone_deep n = n.
Proof.
  induction n as [d|d|t a kids IH] using node_ind'; cbn [clone_deep];
    [reflexivity..|].
  f_equal. induction IH as [|k kids Hk _ IHkids]; [reflexivity|].
  cbn [map]. rewrite Hk, IHkids. reflexivity.
Qed.

(** Induction along the iterations of the loop: an iteration that
    unlinks its child continues two siblings further on. *)
Section loop_induction.
Variable body : node -> world -> step_result * world.
Variable Q : list node -> world -> outcome * world -> Prop.

Hypothesis Q_done : forall w,
  Q [] w ({| appended := []; kept := []; raised := None |}, w).
Hypothesis Q_emit : forall c rest w out c' w1 o w2,
  body c w = (Emit out c', w1) ->
  loop body rest w1 = (o, w2) ->
  Q rest w1 (o, w2) ->
  Q (c :: rest) w
    ({| appended := out ++ appended o; kept := c' :: kept o;
        raised := raised o |}, w2).
Hypothesis Q_moved_last : forall c w out w1,
  body c w = (Moved out, w1) ->
  Q [c] w ({| appended := out; kept := []; raised := None |}, w1).
Hypothesis Q_moved : forall c s rest w out w1 o w2,
  body c w = (Moved out, w1) ->
  loop body rest w1 = (o, w2) ->
  Q rest w1 (o, w2) ->
  Q (c :: s :: rest) w
    ({| appended := out ++ appended o; kept := s :: kept o;
        raised := raised o |}, w2).
Hypothesis Q_fail : forall c rest w out c' ex w1,
  body c w = (Fail out c' ex, w1) ->
  Q (c :: rest) w
    ({| appended := out; kept := c' :: rest; raised := Some ex |}, w1).

Lemma loop_ind_pair l :
  (forall w, Q l w (loop body l w))
  /\ (forall c w, Q (c :: l) w (loop body (c :: l) w)).
Proof.
  induction l as [|s rest [IH0 IH1]].
  - split; [exact Q_done|].
    intros c w. cbn [loop].
    destruct (body c w) as [[out c'|out|out c' ex] w1] eqn:E.
    + apply (Q_emit c [] w out c' w1 _ w1 E eq_refl). apply Q_done.
    + apply (Q_moved_last c w out w1 E).
    + apply (Q_fail c [] w out c' ex w1 E).
  - split; [exact (IH1 s)|].
    intros c w. cbn [loop].
    destruct (body c w) as [[out c'|out|out c' ex] w1] eqn:E.
    + specialize (IH1 s w1). cbn [loop] in IH1 |- *.
      destruct (loop body (s :: rest) w1) as [o w2] eqn:E2.
      cbn [loop] in E2. rewrite E2.
      apply (Q_emit c (s :: rest) w out c' w1 o w2 E).
      * cbn [loop]. exact E2.
      * rewrite E2 in IH1. exact IH1.
    + specialize (IH0 w1).
      destruct (loop body rest w1) as [o w2] eqn:E2.
      apply (Q_moved c s rest w out w1 o w2 E E2 IH0).
    + apply (Q_fail c (s :: rest) w out c' ex w1 E).
Qed.

Lemma loop_ind l w : Q l w (loop body l w).
Proof. apply loop_ind_pair. Qed.
End loop_induction.

End TreeRewriterFacts.

Module TreeRewriterClaims.
Import Str Dom ImageLocalizer TreeRewriter Notions TreeRewriterFacts.

Lemma mem_void_not_pass t :
  mem t void_tags = true -> mem t pass_through_tags = false.
Proof.
  unfold void_tags, mem. cbn [existsb]. rewrite orb_false_r.
  intros H. apply orb_true_iff in H as [H|H]; apply String.eqb_eq in H;
    subst t; reflexivity.
Qed.

(** One iteration on a plain child appends one node of the same shape
    and leaves the child and the world as they are, when the recursive
    call does so for the children of the child. *)
Lemma plain_step (rec : node -> world -> outcome * world) e c w :
  plain c = true ->
  (forallb plain (childNodes c) = true ->
   exists out,
     rec c w = ({| appended := out; kept := childNodes c; raised := None |}, w)
     /\ map shape_of out = map shape_of (childNodes c)) ->
  exists c', step rec e c w = (Emit [c'] c, w) /\ shape_of c' = shape_of c.
Proof.
  intros Hplain Hrec. destruct c as [d|d|t a kids]; [|discriminate|].
  - exists (Text d). split; reflexivity.
  - cbn [plain] in Hplain. unfold step. cbn [classify].
    destruct (mem t void_tags) eqn:Hvoid.
    + destruct kids; [|discriminate]. eexists. split; reflexivity.
    + apply andb_true_iff in Hplain as [Hpass Hkids]. rewrite Hpass.
      destruct (Hrec Hkids) as (out & -> & Hshape).
      cbn [raised kept appended childNodes]. eexists. split; [reflexivity|].
      cbn [shape_of]. rewrite Hshape. reflexivity.
Qed.

(** C9.  Rewriting a source whose subtree holds only text nodes and
    pass-through tags raises nothing, leaves the source and the world
    as they are, and appends to the destination nodes of the same
    shape as the children of the source: the same tag names, the same
    text, in the same order. *)
Theorem pass_through_rewrite_keeps_shape (e : env) (src : node) (w : world) :
  forallb plain (childNodes src) = true ->
  exists out,
    cleanup_tree e src w
    = ({| appended := out; kept := childNodes src; raised := None |}, w)
    /\ map shape_of out = map shape_of (childNodes src).
Proof.
  revert w. induction src as [d|d|t a kids IH] using node_ind'; intros w Hplain;
    [exists []; split; reflexivity..|].
  cbn [childNodes] in *. cbn [cleanup_tree].
  revert w. induction IH as [|k kids Hk _ IHkids]; intros w.
  - exists []. split; reflexivity.
  - cbn [forallb] in Hplain. apply andb_true_iff in Hplain as [Hpk Hpkids].
    cbn [loop].
    destruct (plain_step (cleanup_tree e) e k w Hpk (Hk w)) as (k' & -> & Hs).
    destruct (IHkids Hpkids w) as (out & -> & Hout).
    exists (k' :: out). split; [reflexivity|].
    cbn [map]. rewrite Hs, Hout. reflexivity.
Qed.

Lemma pass_through_rewrite_keeps_shape_witness :
  let src :=
    Element "div" ∅
      [Text "Intro";
       Element "b" {[ "class" := "x" ]} [Text "bold"; Element "br" ∅ []];
       Element "ul" ∅ [Element "li" ∅ [Text "item"]]] in
  forallb plain (childNodes src) = true
  /\ exists out,
       cleanup_tree sample_env src empty_world
       = ({| appended := out; kept := childNodes src; raised := None |},
          empty_world)
       /\ map shape_of out = map shape_of (childNodes src).
Proof.
  split; [reflexivity|].
  apply (pass_through_rewrite_keeps_shape sample_env _ empty_world).
  reflexivity.
Defined.

(** *** The source after a rewrite *)

Lemma unlinked_refl n : unlinked n n.
Proof.
  induction n as [d|d|t a kids IH] using node_ind'; constructor.
  induction IH as [|k kids Hk _ IHkids]; constructor; assumption.
Qed.

Lemma unlinked_list_refl l : unlinked_list l l.
Proof.
  induction l as [|k l IH]; constructor; [apply unlinked_refl | exact IH].
Qed.

(** An iteration leaves its child in the source, with at most title
    children unlinked below it, or unlinks it by a title branch. *)
Lemma step_unlinks_titles e c w :
  (forall w, unlinked_list (kept (cleanup_tree e c w).1) (childNodes c)) ->
  match step (cleanup_tree e) e c w with
  | (Emit _ c', _) | (Fail _ c' _, _) => unlinked c' c
  | (Moved _, _) => is_title c = true
  end.
Proof.
  intros Hrec. unfold step, is_title.
  destruct (classify c) eqn:Hc; try apply unlinked_refl; try reflexivity.
  - (* pass-through *)
    destruct c as [d|d|t a kids]; [apply unlinked_refl..|].
    specialize (Hrec w). destruct (cleanup_tree e (Element t a kids) w) as [o w'].
    destruct (raised o); constructor; exact Hrec.
  - (* embed *)
    destruct (embed e c); apply unlinked_refl.
  - (* inline code *)
    destruct (inline_code c) as [|[]]; apply unlinked_refl.
  - (* unwrap *)
    destruct c as [d|d|t a kids]; [apply unlinked_refl..|].
    specialize (Hrec w). destruct (cleanup_tree e (Element t a kids) w) as [o w'].
    destruct (raised o); constructor; exact Hrec.
  - (* link *)
    destruct c as [d|d|t a kids]; [apply unlinked_refl..|].
    specialize (Hrec w). destruct (cleanup_tree e (Element t a kids) w) as [o w'].
    destruct (raised o); constructor; exact Hrec.
  - (* image *)
    unfold image. destruct (no_download e); [apply unlinked_refl|].
    destruct (localize e _ w) as [[]]; apply unlinked_refl.
Qed.

Lemma rewrite_unlinks_titles e src :
  forall w, unlinked_list (kept (cleanup_tree e src w).1) (childNodes src).
Proof.
  induction src as [d|d|t a kids IH] using node_ind'; intros w;
    [constructor..|].
  cbn [cleanup_tree childNodes].
  revert IH.
  apply (loop_ind (step (cleanup_tree e) e)
           (fun l w r =>
              Forall (fun c => forall w,
                        unlinked_list (kept (cleanup_tree e c w).1)
                                      (childNodes c)) l ->
              unlinked_list (kept r.1) l)).
  - intros w0 _. constructor.
  - intros c rest w0 out c' w1 o w2 E _ IHrest Hall.
    apply Forall_cons in Hall as [Hc Hrest].
    pose proof (step_unlinks_titles e c w0 Hc) as Hstep. rewrite E in Hstep.
    constructor; [exact Hstep | exact (IHrest Hrest)].
  - intros c w0 out w1 E Hall.
    apply Forall_cons in Hall as [Hc _].
    pose proof (step_unlinks_titles e c w0 Hc) as Hstep. rewrite E in Hstep.
    apply unlinked_drop; [exact Hstep | constructor].
  - intros c s rest w0 out w1 o w2 E _ IHrest Hall.
    apply Forall_cons in Hall as [Hc Hall].
    apply Forall_cons in Hall as [_ Hrest].
    pose proof (step_unlinks_titles e c w0 Hc) as Hstep. rewrite E in Hstep.
    apply unlinked_drop; [exact Hstep|].
    constructor; [apply unlinked_refl | exact (IHrest Hrest)].
  - intros c rest w0 out c' ex w1 E Hall.
    apply Forall_cons in Hall as [Hc _].
    pose proof (step_unlinks_titles e c w0 Hc) as Hstep. rewrite E in Hstep.
    constructor; [exact Hstep | apply unlinked_list_refl].
Qed.

(** Without a title node there is nothing to unlink. *)
Lemma unlinked_without_titles n :
  all_nodes (fun n => negb (is_title n)) n = true ->
  forall n', unlinked n' n -> n' = n.
Proof.
  induction n as [d|d|t a kids IH] using node_ind'; intros Hall n' Hn';
    inversion Hn' as [| |t0 a0 kids' kids0 Hkids]; subst; [reflexivity..|].
  f_equal. cbn [all_nodes] in Hall. apply andb_true_iff in Hall as [_ Hall].
  clear Hn'. revert kids' Hkids.
  induction IH as [|k kids Hk _ IHkids]; intros kids' Hkids.
  - inversion Hkids. reflexivity.
  - cbn [forallb] in Hall. apply andb_true_iff in Hall as [Hallk Hallkids].
    inversion Hkids as [|c' c l' l Hc Hl|c l' l Htitle Hl]; subst.
    + f_equal; [apply Hk; assumption | apply IHkids; assumption].
    + exfalso. cbn [all_nodes] in Hallk.
      destruct k; cbn [all_nodes] in Hallk;
        apply andb_true_iff in Hallk as [Hnt _];
        rewrite Htitle in Hnt; discriminate.
Qed.

Lemma unlinked_list_without_titles l :
  forallb (all_nodes (fun n => negb (is_title n))) l = true ->
  forall l', unlinked_list l' l -> l' = l.
Proof.
  intros Hall l' Hl'.
  assert (H : Element "" ∅ l' = Element "" ∅ l); [|congruence].
  apply unlinked_without_titles; [|constructor; exact Hl'].
  cbn [all_nodes]. rewrite Hall. reflexivity.
Qed.

(** What an iteration does to its child: a title branch moves it
    below a new [h1]; a branch that recurses leaves it in place with
    the child list the inner run made; every other branch leaves it
    as it is. *)
Lemma step_rewritten e c w :
  (forall w, exists moved,
      rewritten (completed (cleanup_tree e c w).1) (childNodes c)
                (kept (cleanup_tree e c w).1) moved) ->
  match step (cleanup_tree e) e c w with
  | (Emit _ c', _) =>
      is_title c = false
      /\ ((recursed (classify c) = false /\ c' = c)
          \/ exists t a kids kids' below,
               c = Element t a kids /\ c' = Element t a kids'
               /\ recursed (classify c) = true
               /\ rewritten true kids kids' below)
  | (Moved out, _) => is_title c = true /\ out = [Element "h1" ∅ [c]]
  | (Fail _ c' _, _) =>
      is_title c = false
      /\ ((recursed (classify c) = false /\ c' = c)
          \/ exists t a kids kids' below,
               c = Element t a kids /\ c' = Element t a kids'
               /\ recursed (classify c) = true
               /\ rewritten false kids kids' below)
  end.
Proof.
  intros Hrec. unfold step, is_title.
  assert (Hbelow : forall t a kids,
             c = Element t a kids -> recursed (classify c) = true ->
             forall o w',
               cleanup_tree e c w = (o, w') ->
               exists below, rewritten (completed o) kids (kept o) below).
  { intros t a kids -> _ o w' E. specialize (Hrec w). rewrite E in Hrec.
    exact Hrec. }
  destruct (classify c) eqn:Hc; cbn [recursed] in *;
    try (split; [reflexivity | left; split; reflexivity]);
    try (split; reflexivity).
  - (* pass-through *)
    destruct c as [d|d|t a kids]; [discriminate Hc..|].
    destruct (cleanup_tree e (Element t a kids) w) as [o w'] eqn:E.
    destruct (Hbelow t a kids eq_refl eq_refl o w' eq_refl) as [below Hb].
    unfold completed in Hb.
    destruct (raised o); (split; [reflexivity|]); right;
      exists t, a, kids, (kept o), below; repeat split; exact Hb.
  - (* embed *)
    destruct (embed e c); split; try reflexivity; left; split; reflexivity.
  - (* inline code *)
    destruct (inline_code c) as [|[]]; split; try reflexivity;
      left; split; reflexivity.
  - (* unwrap *)
    destruct c as [d|d|t a kids]; [discriminate Hc..|].
    destruct (cleanup_tree e (Element t a kids) w) as [o w'] eqn:E.
    destruct (Hbelow t a kids eq_refl eq_refl o w' eq_refl) as [below Hb].
    unfold completed in Hb.
    destruct (raised o); (split; [reflexivity|]); right;
      exists t, a, kids, (kept o), below; repeat split; exact Hb.
  - (* link *)
    destruct c as [d|d|t a kids]; [discriminate Hc..|].
    destruct (cleanup_tree e (Element t a kids) w) as [o w'] eqn:E.
    destruct (Hbelow t a kids eq_refl eq_refl o w' eq_refl) as [below Hb].
    unfold completed in Hb.
    destruct (raised o); (split; [reflexivity|]); right;
      exists t, a, kids, (kept o), below; repeat split; exact Hb.
  - (* image *)
    unfold image. destruct (no_download e);
      [split; [reflexivity | left; split; reflexivity]|].
    destruct (localize e _ w) as [[]]; split; try reflexivity;
      left; split; reflexivity.
Qed.

(** Every run of the loop is described by [rewritten], and the [h1]
    nodes made for the children it moved are among the nodes it
    appended, in order. *)
Lemma rewrite_rewritten e src :
  forall w, exists moved,
    rewritten (completed (cleanup_tree e src w).1) (childNodes src)
              (kept (cleanup_tree e src w).1) moved
    /\ map h1_of moved `sublist_of` appended (cleanup_tree e src w).1.
Proof.
  induction src as [d|d|t a kids IH] using node_ind'; intros w;
    [exists []; split; constructor..|].
  cbn [cleanup_tree childNodes].
  assert (IH' : Forall (fun c => forall w, exists moved,
                          rewritten (completed (cleanup_tree e c w).1)
                                    (childNodes c)
                                    (kept (cleanup_tree e c w).1) moved) kids).
  { eapply Forall_impl; [exact IH|]. intros c Hc w0.
    destruct (Hc w0) as (m & Hm & _). exists m. exact Hm. }
  clear IH. revert IH'.
  apply (loop_ind (step (cleanup_tree e) e)
           (fun l w r =>
              Forall (fun c => forall w, exists moved,
                        rewritten (completed (cleanup_tree e c w).1)
                                  (childNodes c)
                                  (kept (cleanup_tree e c w).1) moved) l ->
              exists moved,
                rewritten (completed r.1) l (kept r.1) moved
                /\ map h1_of moved `sublist_of` appended r.1)).
  - intros w0 _. exists []. split; constructor.
  - intros c rest w0 out c' w1 o w2 E _ IHrest Hall.
    apply Forall_cons in Hall as [Hc Hrest].
    destruct (IHrest Hrest) as (moved & Hmoved & Hsub).
    pose proof (step_rewritten e c w0 Hc) as Hstep. rewrite E in Hstep.
    destruct Hstep as [Hnt [[Hleaf ->]|(t0 & a0 & kids0 & kids' & below
                                        & -> & -> & Hr & Hb)]];
      exists moved; cbn [fst kept appended] in *; unfold completed in *;
      cbn [raised] in *;
      (split; [|apply sublist_inserts_l; exact Hsub]).
    + apply rewritten_leaf; assumption.
    + eapply rewritten_below; eassumption.
  - intros c w0 out w1 E Hall. apply Forall_cons in Hall as [Hc _].
    pose proof (step_rewritten e c w0 Hc) as Hstep. rewrite E in Hstep.
    destruct Hstep as [Ht ->]. exists [c]. split.
    + apply rewritten_title_last. exact Ht.
    + reflexivity.
  - intros c s rest w0 out w1 o w2 E _ IHrest Hall.
    apply Forall_cons in Hall as [Hc Hall].
    apply Forall_cons in Hall as [_ Hrest].
    destruct (IHrest Hrest) as (moved & Hmoved & Hsub).
    pose proof (step_rewritten e c w0 Hc) as Hstep. rewrite E in Hstep.
    destruct Hstep as [Ht ->]. exists (c :: moved).
    cbn [fst kept appended] in *; unfold completed in *; cbn [raised] in *.
    split.
    + apply rewritten_title; assumption.
    + cbn [map app]. apply sublist_skip. exact Hsub.
  - intros c rest w0 out c' ex w1 E Hall. apply Forall_cons in Hall as [Hc _].
    pose proof (step_rewritten e c w0 Hc) as Hstep. rewrite E in Hstep.
    destruct Hstep as [Hnt [[Hleaf ->]|(t0 & a0 & kids0 & kids' & below
                                        & -> & -> & Hr & Hb)]];
      exists []; cbn [fst kept appended]; unfold completed; cbn [raised];
      (split; [|apply sublist_nil_l]).
    + apply rewritten_stop; assumption.
    + eapply rewritten_stop_below; eassumption.
Qed.

(** A run that dispatches nothing to a title branch changes nothing. *)
Lemma meets_title_cons c rest :
  meets_title_in (c :: rest)
  = is_title c || (recursed (classify c) && meets_title c) || meets_title_in rest.
Proof. reflexivity. Qed.

Lemma meets_title_element t a kids :
  meets_title (Element t a kids) = meets_title_in kids.
Proof. reflexivity. Qed.

Lemma rewritten_without_titles done before after moved :
  rewritten done before after moved ->
  meets_title_in before = false -> after = before.
Proof.
  induction 1 as [|c Ht|done c s rest rest' moved Ht _ _
                  |done c rest rest' moved Hnt Hleaf _ IH
                  |done t a kids kids' below rest rest' moved Hr _ IHkids _ IHrest
                  |c rest Hnt Hleaf
                  |t a kids kids' below rest Hr _ IHkids];
    rewrite ?meets_title_cons; intros Hfree; try reflexivity.
  - rewrite Ht in Hfree. discriminate.
  - rewrite Ht in Hfree. discriminate.
  - apply orb_false_iff in Hfree as [_ Hrest]. rewrite (IH Hrest). reflexivity.
  - apply orb_false_iff in Hfree as [Hc Hrest].
    apply orb_false_iff in Hc as [_ Hc]. rewrite Hr in Hc. cbn [andb] in Hc.
    rewrite meets_title_element in Hc.
    rewrite (IHkids Hc), (IHrest Hrest). reflexivity.
  - apply orb_false_iff in Hfree as [Hc _].
    apply orb_false_iff in Hc as [_ Hc]. rewrite Hr in Hc. cbn [andb] in Hc.
    rewrite meets_title_element in Hc. rewrite (IHkids Hc). reflexivity.
Qed.

(** C4 (as amended).  A rewrite changes the source through the title
    branches only.  Every child the loop dispatches to a title branch
    is unlinked from the source and relinked below a new [h1], which
    is appended to the destination; the sibling that follows it is
    passed over.  Every other child the loop reaches stays in place
    with its tag and attributes, its children changed in the same way
    if the branch recurses and untouched otherwise; where an exception
    stops the loop, the rest of the source is as it was.  A source in
    which the loop dispatches no node to a title branch is left
    unchanged. *)
Theorem rewrite_only_unlinks_titles (e : env) (src : node) (w : world) :
  let o := (cleanup_tree e src w).1 in
  (exists moved,
      rewritten (completed o) (childNodes src) (kept o) moved
      /\ map h1_of moved `sublist_of` appended o)
  /\ unlinked_list (kept o) (childNodes src)
  /\ (meets_title src = false -> kept o = childNodes src).
Proof.
  intros o. unfold o.
  destruct (rewrite_rewritten e src w) as (moved & Hmoved & Hsub).
  split; [exists moved; split; assumption|].
  split; [apply rewrite_unlinks_titles|].
  intros Hfree. apply (rewritten_without_titles _ _ _ _ Hmoved).
  destruct src; [reflexivity..|exact Hfree].
Qed.

Lemma rewrite_only_unlinks_titles_witness :
  let src :=
    Element "div" ∅
      [Element "span" {[ "class" := "hidden" ]}
         [Element "span" {[ "class" := "question_text" ]} [Text "Why?"]];
       Element "span" ∅
         [Text "see "; Element "a" {[ "href" := "/Jane-Doe" ]} [Text "Jane"]];
       Element "table" {[ "class" := "codeblocktable" ]}
         [Element "div" ∅ [Element "span" ∅ [Text "x = 1"]]]] in
  meets_title src = false
  /\ kept (cleanup_tree sample_env src empty_world).1 = childNodes src.
Proof.
  split; [reflexivity|].
  apply (proj2 (proj2 (rewrite_only_unlinks_titles sample_env _ empty_world))).
  reflexivity.
Defined.

(** C4 as the specification states it fails: the title branch takes
    the child out of the source, and the sibling after it is passed
    over. *)
Lemma title_branch_unlinks_source_child :
  let title := Element "span" {[ "class" := "question_text" ]} [Text "Why?"] in
  let src := Element "div" ∅ [title; Element "b" ∅ [Text "details"]] in
  (cleanup_tree sample_env src empty_world).1
  = {| appended := [Element "h1" ∅ [title]];
       kept := [Element "b" ∅ [Text "details"]];
       raised := None |}
  /\ kept (cleanup_tree sample_env src empty_world).1 <> childNodes src.
Proof. split; [reflexivity|]. vm_compute. discriminate. Qed.

(** *** Failures inside the handlers *)

Lemma download_raises e src filename path w ex w' :
  download e src filename path w = (Raise ex, w') ->
  (exists n, ex = OSError n) \/ urlopen e src = inl ex.
Proof.
  unfold download. destruct (urlopen e src) as [ex0|img] eqn:Hnet.
  - destruct (remove_fails e path); intros [= <- _]; right; reflexivity.
  - destruct (write_errno e path) as [n|]; [|discriminate].
    destruct (remove_fails e path); intros [= <- _]; left; eexists; reflexivity.
Qed.

Lemma try_localize_raises e src w ex w' :
  (forall url ex, urlopen e url = inl ex -> handled ex = true) ->
  try_localize e src w = (Raise ex, w') ->
  handled ex = true.
Proof.
  intros Hnet. unfold try_localize, derive_filename.
  destruct (url_segment src) as [seg|]; [|intros [= <- _]; reflexivity].
  destruct (files w !! _); [discriminate|].
  destruct (open_errno e _) as [n|]; [intros [= <- _]; reflexivity|].
  destruct (download e src _ _ _) as [[u|ex0] w2] eqn:Hd; [discriminate|].
  intros [= <- _]. destruct (download_raises _ _ _ _ _ _ _ Hd) as [[n ->]|H];
    [reflexivity | exact (Hnet _ _ H)].
Qed.

Lemma localize_handles e src w :
  (forall url ex, urlopen e url = inl ex -> handled ex = true) ->
  forall ex w', localize e src w <> (Escaped ex, w').
Proof.
  intros Hnet ex w'. unfold localize.
  destruct (try_localize e src w) as [[f|ex0] w1] eqn:Ht; [discriminate|].
  pose proof (try_localize_raises _ _ _ _ _ Hnet Ht) as Hh.
  destruct ex0; try discriminate.
Qed.

Lemma image_does_not_fail e c w :
  fetch_failures_handled e ->
  forall out c' ex w', image e c w <> (Fail out c' ex, w').
Proof.
  intros [Hoff|Hnet] out c' ex w'; unfold image.
  - rewrite Hoff. discriminate.
  - destruct (no_download e); [discriminate|].
    destruct (localize e _ w) as [[f| |ex0] w1] eqn:Hl; try discriminate.
    exfalso. exact (localize_handles _ _ _ Hnet _ _ Hl).
Qed.

Lemma classified_element c :
  match classify c with
  | RText | RNonElement => True
  | _ => exists t a kids, c = Element t a kids
  end.
Proof.
  destruct c as [d|d|t a kids]; cbn [classify]; [exact I..|].
  repeat match goal with
         | |- context [if ?b then _ else _] => destruct b
         end; eexists _, _, _; reflexivity.
Qed.

Lemma guarded_inline_code c :
  probe_is_element c = true ->
  is_ok (inline_code c) = true \/ exists msg, inline_code c = Raise (ValueError msg).
Proof.
  unfold probe_is_element, inline_code.
  destruct (firstChild c) as [pre|]; cbn [mbind option_bind]; [|discriminate].
  destruct (firstChild pre) as [[d|d|t a kids]|]; try discriminate.
  intros _. destruct (negb (String.eqb t "span"));
    [right; eexists; reflexivity | left; reflexivity].
Qed.

(** An iteration on a guarded child does not raise, when the recursive
    call does not. *)
Lemma guarded_step e c w :
  fetch_failures_handled e ->
  guarded c = true ->
  (forall w, raised (cleanup_tree e c w).1 = None) ->
  forall out c' ex w', step (cleanup_tree e) e c w <> (Fail out c' ex, w').
Proof.
  intros Hnet Hg Hrec out c' ex w'. unfold step. unfold guarded in Hg.
  pose proof (classified_element c) as Hel.
  destruct (classify c) eqn:Hc; try discriminate.
  - destruct Hel as (t & a & kids & ->). specialize (Hrec w).
    destruct (cleanup_tree e (Element t a kids) w) as [o w1].
    cbn [fst] in Hrec. rewrite Hrec. discriminate.
  - destruct (embed e c); discriminate.
  - destruct (guarded_inline_code c Hg) as [Hok|[msg Hv]].
    + destruct (inline_code c); [discriminate|discriminate Hok].
    + rewrite Hv. discriminate.
  - destruct Hel as (t & a & kids & ->). specialize (Hrec w).
    destruct (cleanup_tree e (Element t a kids) w) as [o w1].
    cbn [fst] in Hrec. rewrite Hrec. discriminate.
  - destruct Hel as (t & a & kids & ->). specialize (Hrec w).
    destruct (cleanup_tree e (Element t a kids) w) as [o w1].
    cbn [fst] in Hrec. rewrite Hrec. discriminate.
  - apply image_does_not_fail. exact Hnet.
Qed.

Lemma guarded_rewrite e src :
  fetch_failures_handled e ->
  forallb (all_nodes guarded) (childNodes src) = true ->
  forall w, raised (cleanup_tree e src w).1 = None.
Proof.
  intros Hnet.
  induction src as [d|d|t a kids IH] using node_ind'; intros Hall w;
    [reflexivity..|].
  cbn [cleanup_tree childNodes] in *.
  revert IH Hall.
  apply (loop_ind (step (cleanup_tree e) e)
           (fun l w r =>
              Forall (fun c => forallb (all_nodes guarded) (childNodes c) = true ->
                               forall w, raised (cleanup_tree e c w).1 = None) l ->
              forallb (all_nodes guarded) l = true ->
              raised r.1 = None)).
  - reflexivity.
  - intros c rest w0 out c' w1 o w2 E _ IHrest Hrec Hall.
    apply Forall_cons in Hrec as [_ Hrec]. cbn [forallb] in Hall.
    apply andb_true_iff in Hall as [_ Hall]. exact (IHrest Hrec Hall).
  - reflexivity.
  - intros c s rest w0 out w1 o w2 E _ IHrest Hrec Hall.
    apply Forall_cons in Hrec as [_ Hrec]. apply Forall_cons in Hrec as [_ Hrec].
    cbn [forallb] in Hall. apply andb_true_iff in Hall as [_ Hall].
    apply andb_true_iff in Hall as [_ Hall]. exact (IHrest Hrec Hall).
  - intros c rest w0 out c' ex w1 E Hrec Hall. exfalso.
    apply Forall_cons in Hrec as [Hc _]. cbn [forallb] in Hall.
    apply andb_true_iff in Hall as [Hall _].
    assert (Hg : guarded c = true /\ forallb (all_nodes guarded) (childNodes c) = true).
    { destruct c; cbn [all_nodes childNodes] in *;
        apply andb_true_iff in Hall as [Hg Hk]; split; try assumption;
        reflexivity. }
    destruct Hg as [Hg Hk].
    exact (guarded_step e c w0 Hnet Hg (Hc Hk) _ _ _ _ E).
Qed.

(** C3 (as amended).  In a source made of text nodes and elements in
    which every inline-code node has an element where its [span] is
    looked for, and with image fetches that fail in a handled way, no
    failure leaves the rewrite.  A malformed embed, an inline-code node
    whose probed element is not a [span], and an unrecognized tag each
    append a verbatim deep copy of the node and a warning; the
    code-block branch cannot fail.  A child that is neither a text node
    nor an element is not copied: the iteration raises [ValueError]. *)
Theorem handler_failures_become_copies (e : env) (src : node) (w : world) :
  (fetch_failures_handled e ->
   forallb (all_nodes guarded) (childNodes src) = true ->
   raised (cleanup_tree e src w).1 = None)
  /\ (forall rec c, classify c = REmbed -> is_ok (embed e c) = false ->
        step rec e c w
        = (Emit [c] c, print "[WARNING] Failed to parse video embed code" w))
  /\ (forall rec c msg, classify c = RInlineCode ->
        inline_code c = Raise (ValueError msg) ->
        step rec e c w
        = (Emit [c] c, print "[WARNING] Failed to parse inline codeblock" w))
  /\ (forall rec c, classify c = RCodeBlock ->
        step rec e c w = (Emit [code_block c] c, w))
  /\ (forall rec c, classify c = ROther ->
        exists w', step rec e c w = (Emit [c] c, w'))
  /\ (forall rec c, classify c = RNonElement ->
        step rec e c w = (Fail [] c (ValueError ""), w)).
Proof.
  split; [intros Hnet Hall; apply guarded_rewrite; assumption|].
  repeat split.
  - intros rec c Hc Hfail. unfold step. rewrite Hc.
    destruct (embed e c); [discriminate|]. rewrite clone_deep_id. reflexivity.
  - intros rec c msg Hc Hfail. unfold step. rewrite Hc, Hfail, clone_deep_id.
    reflexivity.
  - intros rec c Hc. unfold step. rewrite Hc. reflexivity.
  - intros rec c Hc. unfold step. rewrite Hc, clone_deep_id. eexists. reflexivity.
  - intros rec c Hc. unfold step. rewrite Hc. reflexivity.
Qed.

Lemma handler_failures_become_copies_witness :
  let bad_embed := Element "div" {[ "data-embed" := "<p>gone</p>" ]} [] in
  let bad_inline :=
    Element "div" {[ "class" := "inline_codeblock" ]}
      [Element "pre" ∅ [Element "em" ∅ [Text "x=1"]]] in
  let unknown := Element "table" ∅ [Text "cell"] in
  let src := Element "div" ∅ [bad_embed; bad_inline; unknown] in
  let e :=
    {| no_download := true; verbose := false; output_dir := "out";
       urlopen := fun _ => inl URLError;
       open_errno := fun _ => None; write_errno := fun _ => None;
       remove_fails := fun _ => false;
       parse := fun _ =>
         Element "html" ∅
           [Element "head" ∅ []; Element "body" ∅ [Element "p" ∅ [Text "gone"]]] |} in
  (fetch_failures_handled e
   /\ forallb (all_nodes guarded) (childNodes src) = true)
  /\ raised (cleanup_tree e src empty_world).1 = None
  /\ appended (cleanup_tree e src empty_world).1 = [bad_embed; bad_inline; unknown].
Proof.
  intros bad_embed bad_inline unknown src e.
  assert (Hnet : fetch_failures_handled e) by (left; reflexivity).
  assert (Hall : forallb (all_nodes guarded) (childNodes src) = true)
    by reflexivity.
  split; [split; assumption|].
  split; [|reflexivity].
  exact (proj1 (handler_failures_become_copies e src empty_world) Hnet Hall).
Defined.

(** C3 as the specification states it fails: a comment among the
    children makes the rewrite raise, after the nodes before it were
    appended. *)
Lemma comment_node_aborts_rewrite :
  (cleanup_tree sample_env
     (Element "div" ∅ [Text "before"; Comment "note"; Text "after"])
     empty_world).1
  = {| appended := [Text "before"];
       kept := [Text "before"; Comment "note"; Text "after"];
       raised := Some (ValueError "") |}.
Proof. reflexivity. Qed.

(** The inline-code branch catches [ValueError] only: a node without
    the expected children makes the rewrite raise [AttributeError]. *)
Lemma inline_code_without_children_escapes :
  (cleanup_tree sample_env
     (Element "div" ∅ [Element "div" {[ "class" := "inline_codeblock" ]} []])
     empty_world).1
  = {| appended := [];
       kept := [Element "div" {[ "class" := "inline_codeblock" ]} []];
       raised := Some AttributeError |}.
Proof. reflexivity. Qed.

(** *** The class tests of the dispatch *)

Ltac decided :=
  solve [repeat split; intros; try assumption; try discriminate;
         try reflexivity; try (intuition congruence); auto].

(** C5 (as amended).  For an element that is neither void nor
    pass-through, each class-gated branch is taken exactly when the
    branches before it are not and its marker occurs in the [class]
    attribute as a substring; the embed branch is gated by a non-empty
    [data-embed] attribute.  A marker that is a token of the class list
    occurs as a substring, so it matches; a marker inside a longer
    token matches too. *)
Theorem class_rules_match_substrings
        (tag : string) (a : gmap string string) (kids : list node) :
  let c := Element tag a kids in
  let class := getAttribute c "class" in
  let data_embed := getAttribute c "data-embed" in
  mem tag void_tags = false ->
  mem tag pass_through_tags = false ->
  (classify c = RQuestionTitle <-> contains "question_text" class = true)
  /\ (classify c = RPostTitle <->
      contains "question_text" class = false
      /\ contains "board_item_title" class = true)
  /\ (classify c = REmbed <->
      contains "question_text" class = false
      /\ contains "board_item_title" class = false
      /\ data_embed <> "")
  /\ (classify c = RInlineCode <->
      contains "question_text" class = false
      /\ contains "board_item_title" class = false
      /\ data_embed = ""
      /\ contains "inline_codeblock" class = true)
  /\ (classify c = RSkip <->
      contains "question_text" class = false
      /\ contains "board_item_title" class = false
      /\ data_embed = ""
      /\ contains "inline_codeblock" class = false
      /\ (contains "ContentFooter" class = true
          \/ contains "hidden" class = true))
  /\ (classify c = RCodeBlock <->
      contains "question_text" class = false
      /\ contains "board_item_title" class = false
      /\ data_embed = ""
      /\ contains "inline_codeblock" class = false
      /\ contains "ContentFooter" class = false
      /\ contains "hidden" class = false
      /\ mem tag ["span"; "div"] = false
      /\ tag <> "a" /\ tag <> "img"
      /\ contains "codeblocktable" class = true)
  /\ (forall marker, In marker (split class) -> contains marker class = true).
Proof.
  intros c class data_embed Hvoid Hpass.
  assert (Hcl : classify c
                = if contains "question_text" class then RQuestionTitle
                  else if contains "board_item_title" class then RPostTitle
                  else if negb (String.eqb data_embed "") then REmbed
                  else if contains "inline_codeblock" class then RInlineCode
                  else if contains "ContentFooter" class || contains "hidden" class
                       then RSkip
                  else if mem tag ["span"; "div"] then RUnwrap
                  else if String.eqb tag "a" then RLink
                  else if String.eqb tag "img" then RImage
                  else if contains "codeblocktable" class then RCodeBlock
                  else ROther).
  { unfold c at 1. cbn [classify]. rewrite Hvoid, Hpass. reflexivity. }
  rewrite Hcl. clear Hcl.
  assert (Htok : forall marker,
             In marker (split class) -> contains marker class = true)
    by (intros marker; apply StrFacts.token_is_substring).
  revert Htok. generalize (split class). intros tokens Htok.
  destruct (contains "question_text" class); [decided|].
  destruct (contains "board_item_title" class); [decided|].
  destruct (String.eqb_spec data_embed "") as [He|He]; cbn [negb]; [|decided].
  destruct (contains "inline_codeblock" class); [decided|].
  destruct (contains "ContentFooter" class); cbn [orb]; [decided|].
  destruct (contains "hidden" class); [decided|].
  destruct (mem tag ["span"; "div"]); [decided|].
  destruct (String.eqb_spec tag "a") as [Ha|Ha]; [decided|].
  destruct (String.eqb_spec tag "img") as [Hi|Hi]; [decided|].
  destruct (contains "codeblocktable" class); decided.
Qed.

Lemma class_rules_match_substrings_witness :
  let c := Element "span" {[ "class" := "unhidden_block" ]} [Text "shown"] in
  (mem "span" void_tags = false /\ mem "span" pass_through_tags = false)
  /\ classify c = RSkip
  /\ contains "hidden" (getAttribute c "class") = true.
Proof.
  intros c. split; [split; reflexivity|].
  destruct (class_rules_match_substrings
              "span" {[ "class" := "unhidden_block" ]} [Text "shown"]
              eq_refl eq_refl)
    as (_ & _ & _ & _ & Hskip & _).
  split; [|reflexivity].
  apply Hskip. repeat split; try reflexivity. right. reflexivity.
Defined.

(** C5 as the specification states it fails: [hidden] is no token of
    the class list of this node, yet the node takes the skip branch and
    its text is dropped. *)
Lemma substring_of_longer_token_matches :
  let c := Element "span" {[ "class" := "unhidden_block" ]} [Text "shown"] in
  split (getAttribute c "class") = ["unhidden_block"]
  /\ mem "hidden" (split (getAttribute c "class")) = false
  /\ classify c = RSkip
  /\ (cleanup_tree sample_env (Element "div" ∅ [c]) empty_world).1
     = {| appended := []; kept := [c]; raised := None |}.
Proof. repeat split. Qed.

End TreeRewriterClaims.

(** ** PageAssembler *)

Module PageAssemblerClaims.
Import Str Dom DateResolver TreeRewriter PageAssembler Notions.

(** *** The footer branches *)

Lemma subscript_0 {A} (x : A) l : subscript (x :: l) 0 = Ok x.
Proof.
  unfold subscript. cbn [Z.ltb Z.compare orb].
  destruct (Z.leb_spec (Z.of_nat (length (x :: l))) 0) as [H|_];
    [cbn [length] in H; lia | reflexivity].
Qed.

Lemma subscript_1 {A} (x y : A) l : subscript (x :: y :: l) 1 = Ok y.
Proof.
  unfold subscript. cbn [Z.ltb Z.compare orb].
  destruct (Z.leb_spec (Z.of_nat (length (x :: y :: l))) 1) as [H|_];
    [cbn [length] in H; lia | reflexivity].
Qed.

(** The credibility footer writes to the anchor it read from. *)
Lemma credibility_footer_rewrites_first_anchor
      origin n a0 rest first text relative new_time :
  filter (fun p => bool_decide (p <> [])) (element_paths "a" n) = a0 :: rest ->
  lookup_path a0 n ≫= firstChild = Some first ->
  nodeValue first = Some text ->
  match_ago "Answered " text = Some relative ->
  parse_quora_date origin relative = Ok new_time ->
  footer "Answered " 0 origin n
  = update_path (a0 ++ [O]) (set_nodeValue ("Answered " +:+ new_time)) n.
Proof.
  intros Hanchors Hfirst Htext Hmatch Hdate. unfold footer, footer_try.
  cbv zeta. rewrite Hanchors, subscript_0. cbn [rbind].
  rewrite Hfirst, Htext, Hmatch, Hdate. cbn [rbind]. reflexivity.
Qed.

(** The post footer reads the first anchor and writes to the second. *)
Lemma post_footer_rewrites_second_anchor
      origin n a0 a1 rest first second text relative new_time :
  filter (fun p => bool_decide (p <> [])) (element_paths "a" n)
  = a0 :: a1 :: rest ->
  lookup_path a0 n ≫= firstChild = Some first ->
  lookup_path a1 n ≫= firstChild = Some second ->
  nodeValue first = Some text ->
  match_ago "Posted " text = Some relative ->
  parse_quora_date origin relative = Ok new_time ->
  footer "Posted " 1 origin n
  = update_path (a1 ++ [O]) (set_nodeValue ("Posted " +:+ new_time)) n.
Proof.
  intros Hanchors Hfirst Hsecond Htext Hmatch Hdate. unfold footer, footer_try.
  cbv zeta. rewrite Hanchors, subscript_0. cbn [rbind].
  rewrite Hfirst, Htext, Hmatch, Hdate. cbn [rbind].
  rewrite subscript_1. cbn [rbind]. rewrite Hsecond. reflexivity.
Qed.

(** C6.  A post footer whose first anchor reads ["Posted 3h ago"]: the
    scan leaves that anchor as it is and overwrites the text of the
    second anchor with the resolved date; with a single anchor nothing
    is rewritten.  The credibility footer rewrites the anchor it read.
    (Origin 2015-02-01T00:00:00Z; the month name is the one C1
    describes.) *)
Theorem post_footer_overwrites_other_anchor :
  let page footer_div :=
    Element "html" ∅ [Element "head" ∅ []; Element "body" ∅ [footer_div]] in
  let post_footer anchors := Element "div" {[ "class" := "PostFooter" ]} anchors in
  let facts anchors := Element "div" {[ "class" := "CredibilityFacts" ]} anchors in
  let a text := Element "a" ∅ [Text text] in
  (scan 1422748800 (page (post_footer [a "Posted 3h ago"; a "My Blog"]))).1
  = page (post_footer [a "Posted 3h ago"; a "Posted Feb 31, 2015"])
  /\ (scan 1422748800 (page (post_footer [a "Posted 3h ago"]))).1
     = page (post_footer [a "Posted 3h ago"])
  /\ (scan 1422748800 (page (facts [a "Answered 3h ago"; a "My Blog"]))).1
     = page (facts [a "Answered Feb 31, 2015"; a "My Blog"]).
Proof. vm_compute. repeat split. Qed.

(** *** Files without the required regions *)

Lemma not_located_crashes w : not_located w = (Crashed (NameError "url"), w).
Proof. reflexivity. Qed.

(** A document in which the scan finds no content region or no question
    region ends the loop body with [NameError]. *)
Lemma missing_region_crashes e origin unwritable filename document w :
  let r := (scan origin document).2 in
  (answer_node r = None /\ post_node r = None) \/ question_node r = None ->
  exists w',
    process_file e origin unwritable filename (Some document) w
    = (Crashed (NameError "url"), w')
    /\ files w' = files w
    /\ Forall (fun line => String.prefix "[WARNING]" line = false)
              (skipn (length (stderr w)) (stderr w')).
Proof.
  intros r Hmissing. unfold process_file.
  destruct (scan origin document) as [document' r'] eqn:Hscan.
  cbn [snd] in r. subst r.
  set (w1 := log_if_v e _ (print _ w)).
  assert (Hw1 : files w1 = files w
                /\ Forall (fun line => String.prefix "[WARNING]" line = false)
                          (skipn (length (stderr w)) (stderr w1))).
  { unfold w1, log_if_v. destruct (verbose e); cbn [files stderr print];
      (split; [reflexivity|]); rewrite <- ?app_assoc, drop_app_length;
      repeat constructor. }
  exists w1. split; [|exact Hw1].
  destruct Hmissing as [[Ha Hp]|Hq].
  - rewrite Ha, Hp. apply not_located_crashes.
  - rewrite Hq. destruct (answer_node r'), (post_node r');
      apply not_located_crashes.
Qed.

(** The run ends there: status 1, nothing more saved. *)
Lemma run_stops_at_missing_region e origin unwritable filename document rest saved w :
  let r := (scan origin document).2 in
  (answer_node r = None /\ post_node r = None) \/ question_node r = None ->
  let result :=
    run_files e origin unwritable ((filename, Some document) :: rest) saved w in
  exit_status result = Some 1 /\ written result = saved.
Proof.
  intros r Hmissing result.
  destruct (missing_region_crashes e origin unwritable filename document w
              Hmissing) as (w' & Hcrash & _).
  unfold result. cbn [run_files]. rewrite Hcrash. split; reflexivity.
Qed.

(** C2.  A run over two files, the first with no [div] at all, the
    second a complete answer page: the first file raises [NameError]
    where the warning is to be printed, since the message reads the
    undefined name [url]; the run ends with status 1, prints no
    warning, and never reaches the second file.  Run alone, the second
    file is converted and the run ends with status 0. *)
Theorem missing_region_aborts_run :
  let empty_page :=
    Element "html" ∅ [Element "head" ∅ []; Element "body" ∅ [Text "nothing"]] in
  let answer_page :=
    Element "html" ∅
      [Element "head" ∅ [Element "title" ∅ [Text "Why?"]];
       Element "body" ∅
         [Element "div" {[ "class" := "ans_page_question_header" ]} [Text "Why?"];
          Element "div" {[ "class" := "ExpandedAnswer" ]} [Text "Because."];
          Element "div" {[ "class" := "CredibilityFacts" ]}
            [Element "a" ∅ [Text "Answered Jan 5"]]]] in
  let unwritable := fun _ : string => false in
  let both :=
    main sample_env 1422748800 unwritable
         [("a.html", Some empty_page); ("b.html", Some answer_page)] empty_world in
  let second_alone :=
    main sample_env 1422748800 unwritable [("b.html", Some answer_page)] empty_world in
  (process_file sample_env 1422748800 unwritable "a.html" (Some empty_page)
                empty_world).1
  = Crashed (NameError "url")
  /\ exit_status both = Some 1
  /\ written both = []
  /\ stderr (final both) = ["Found 2 answers"; "Filename: a.html"]
  /\ exit_status second_alone = Some 0
  /\ map fst (written second_alone) = ["b.html"].
Proof. vm_compute. repeat split. Qed.

End PageAssemblerClaims.

(** * Further properties of the code *)

(** ** More facts about strings and patterns *)

Module PatternFacts.
Import Str StrFacts DateResolver MoreNotions.

Lemma lit_app p r : lit p (p +:+ r) = Some r.
Proof.
  induction p as [|c p IH]; [reflexivity|].
  rewrite app_cons. cbn [lit]. rewrite Ascii.eqb_refl. exact IH.
Qed.

Lemma lit_inv p s r : lit p s = Some r -> s = p +:+ r.
Proof.
  revert s. induction p as [|c p IH]; intros s H.
  - cbn [lit] in H. injection H as ->. reflexivity.
  - destruct s as [|x s]; [discriminate|]. cbn [lit] in H.
    destruct (Ascii.eqb_spec c x) as [->|]; [|discriminate].
    rewrite app_cons, (IH s H). reflexivity.
Qed.

Lemma eos_inv r : eos r = true -> r = "" \/ r = String (ascii_of_nat 10) "".
Proof.
  unfold eos. intros H. apply orb_true_iff in H as [H|H];
    apply String.eqb_eq in H; auto.
Qed.

Lemma alt_inv names s n r : alt names s = Some (n, r) -> In n names /\ s = n +:+ r.
Proof.
  induction names as [|x names IH]; cbn [alt]; [discriminate|].
  destruct (lit x s) as [r0|] eqn:E.
  - intros [= <- <-]. split; [left; reflexivity | exact (lit_inv _ _ _ E)].
  - intros H. destruct (IH H) as [Hin Hs]. split; [right; exact Hin | exact Hs].
Qed.

Lemma span_all p s : all_chars p s = true -> span p s = (s, "").
Proof.
  induction s as [|c s IH]; [reflexivity|]. cbn [all_chars span].
  intros H. apply andb_true_iff in H as [-> H]. rewrite (IH H). reflexivity.
Qed.

Lemma span_all_app p s rest :
  all_chars p s = true ->
  match rest with EmptyString => True | String c _ => p c = false end ->
  span p (s +:+ rest) = (s, rest).
Proof.
  intros Hs Hrest. induction s as [|c s IH].
  - rewrite app_nil. destruct rest as [|c r]; [reflexivity|].
    cbn [span]. rewrite Hrest. reflexivity.
  - cbn [all_chars] in Hs. apply andb_true_iff in Hs as [Hc Hs].
    rewrite app_cons. cbn [span]. rewrite Hc, (IH Hs). reflexivity.
Qed.

Lemma span_chars p s : forall a b, span p s = (a, b) -> all_chars p a = true.
Proof.
  induction s as [|c s IH]; intros a b H; cbn [span] in H.
  - injection H as <- <-. reflexivity.
  - destruct (p c) eqn:Hc.
    + destruct (span p s) as [a0 b0]. injection H as <- <-.
      cbn [all_chars]. rewrite Hc. exact (IH a0 b0 eq_refl).
    + injection H as <- <-. reflexivity.
Qed.

Lemma numeral_inv ds :
  numeral ds = true ->
  all_chars is_digit ds = true
  /\ exists c r, ds = String c r /\ is_digit c = true.
Proof.
  unfold numeral. intros H. apply andb_true_iff in H as [Hne Hall].
  split; [exact Hall|]. destruct ds as [|c r]; [discriminate|].
  cbn [all_chars] in Hall. apply andb_true_iff in Hall as [Hc _].
  exists c, r. split; [reflexivity | exact Hc].
Qed.

Lemma digits1_numeral ds rest :
  numeral ds = true ->
  match rest with EmptyString => True | String c _ => is_digit c = false end ->
  digits1 (ds +:+ rest) = Some (ds, rest).
Proof.
  intros Hds Hrest. destruct (numeral_inv ds Hds) as (Hall & c & r & -> & _).
  unfold digits1. rewrite (span_all_app _ _ _ Hall Hrest). reflexivity.
Qed.

Lemma digits1_inv s ds r :
  digits1 s = Some (ds, r) ->
  s = ds +:+ r /\ numeral ds = true
  /\ match r with EmptyString => True | String c _ => is_digit c = false end.
Proof.
  unfold digits1. destruct (span is_digit s) as [a b] eqn:E.
  destruct a as [|c a]; [discriminate|]. intros [= <- <-].
  split; [exact (ImageLocalizerFacts.span_app _ _ _ _ E)|].
  split.
  - unfold numeral. cbn [String.eqb negb andb]. exact (span_chars _ _ _ _ E).
  - clear -E. revert c a b E. induction s as [|x s IH]; intros c a b E;
      cbn [span] in E; [discriminate|].
    destruct (is_digit x) eqn:Hx; [|discriminate].
    destruct (span is_digit s) as [a0 b0] eqn:E0. injection E as <- <- <-.
    destruct a0 as [|c0 a0].
    + destruct s as [|y s]; cbn [span] in E0; [injection E0 as <-; exact I|].
      destruct (is_digit y) eqn:Hy;
        [destruct (span is_digit s); discriminate|].
      injection E0 as <-. exact Hy.
    + exact (IH _ _ _ eq_refl).
Qed.

(** A string that starts with a digit starts with no name and not with
    ["just now"]. *)
Lemma digit_first_no_name c r :
  is_digit c = true ->
  lit "just now" (String c r) = None
  /\ alt days_of_week (String c r) = None
  /\ alt months_of_year (String c r) = None.
Proof.
  intros Hc.
  assert (Hne : forall x, is_digit x = false -> Ascii.eqb x c = false).
  { intros x Hx. destruct (Ascii.eqb_spec x c) as [->|]; [congruence|reflexivity]. }
  unfold days_of_week, months_of_year. cbn [alt lit].
  rewrite !Hne by reflexivity. repeat split.
Qed.

Lemma digits1_no_name s ds r :
  digits1 s = Some (ds, r) ->
  m0 s = false /\ alt days_of_week s = None /\ alt months_of_year s = None.
Proof.
  intros H. destruct (digits1_inv _ _ _ H) as (-> & Hnum & _).
  destruct (numeral_inv _ Hnum) as (_ & c & r0 & -> & Hc).
  rewrite app_cons. unfold m0.
  destruct (digit_first_no_name c (r0 +:+ r) Hc) as (-> & -> & ->).
  repeat split.
Qed.

Lemma day_name_no_month s d r :
  alt days_of_week s = Some (d, r) ->
  m0 s = false /\ alt months_of_year s = None.
Proof.
  intros H. destruct (alt_inv _ _ _ _ H) as [Hin ->].
  unfold days_of_week in Hin. cbn [In] in Hin.
  repeat (destruct Hin as [<-|Hin]; [split; reflexivity|]). destruct Hin.
Qed.

Lemma month_name_no_day s m r :
  alt months_of_year s = Some (m, r) ->
  m0 s = false /\ alt days_of_week s = None /\ digits1 s = None.
Proof.
  intros H. destruct (alt_inv _ _ _ _ H) as [Hin ->].
  unfold months_of_year in Hin. cbn [In] in Hin.
  repeat (destruct Hin as [<-|Hin]; [repeat split; reflexivity|]). destruct Hin.
Qed.

Lemma m0_no_digits s : m0 s = true -> digits1 s = None
                                    /\ alt days_of_week s = None
                                    /\ alt months_of_year s = None.
Proof.
  unfold m0. destruct (lit "just now" s) as [r|] eqn:E; [|discriminate].
  intros _. rewrite (lit_inv _ _ _ E). repeat split; reflexivity.
Qed.

End PatternFacts.

(** ** More of the date resolver *)

Module DateResolverMore.
Import Str StrFacts Time DateResolver DateResolverFacts MoreNotions PatternFacts.

Lemma b2n_le b : (Nat.b2n b <= 1)%nat.
Proof. destruct b; cbn; lia. Qed.

Lemma is_Some_bool {A} (o : option A) :
  bool_decide (is_Some o) = match o with Some _ => true | None => false end.
Proof.
  destruct o; [apply bool_decide_eq_true; eexists; reflexivity|].
  apply bool_decide_eq_false. intros [x H]. discriminate.
Qed.

(** X1.  At most one of the seven patterns of [parse_quora_date]
    matches a given string, so the order of the [elif] chain decides
    nothing. *)
Theorem at_most_one_form_matches (s : string) : (forms_matched s <= 1)%nat.
Proof.
  unfold forms_matched. rewrite !is_Some_bool.
  unfold m1, m2, m3, m4, m5, m6, digits_then.
  destruct (m0 s) eqn:H0.
  - destruct (m0_no_digits s H0) as (-> & -> & ->). cbn. lia.
  - destruct (digits1 s) as [[ds r]|] eqn:Hd.
    + destruct (digits1_no_name _ _ _ Hd) as (_ & -> & ->).
      cbn [mbind option_bind Nat.b2n Nat.add].
      destruct r as [|c r]; [cbn; lia|].
      change (lit "m ago" (String c r))
        with (if Ascii.eqb "m" c then lit " ago" r else None).
      change (lit "h ago" (String c r))
        with (if Ascii.eqb "h" c then lit " ago" r else None).
      destruct (lit " ago" r ≫= λ r' : string, if eos r' then Some ds else None)
        as [g|] eqn:Hago.
      * destruct (Ascii.eqb_spec "m" c) as [<-|Hm];
          [cbn [Ascii.eqb Bool.eqb andb orb mbind option_bind Nat.b2n Nat.add];
           rewrite ?Hago; cbn [Nat.b2n Nat.add]; lia|].
        destruct (Ascii.eqb_spec "h" c) as [<-|Hh];
          [cbn [Ascii.eqb Bool.eqb andb orb mbind option_bind Nat.b2n Nat.add];
           rewrite ?Hago; cbn [Nat.b2n Nat.add]; lia|].
        cbn [mbind option_bind Nat.b2n Nat.add]. rewrite ?Nat.add_0_r.
        apply b2n_le.
      * destruct (Ascii.eqb "m" c), (Ascii.eqb "h" c);
          cbn [mbind option_bind]; rewrite ?Hago;
          cbn [Nat.b2n Nat.add]; rewrite ?Nat.add_0_r; apply b2n_le.
    + cbn [mbind option_bind Nat.b2n Nat.add].
      destruct (alt days_of_week s) as [[d r]|] eqn:Hday.
      * destruct (day_name_no_month _ _ _ Hday) as (_ & ->).
        cbn [mbind option_bind Nat.b2n Nat.add]. rewrite ?Nat.add_0_r.
        destruct (if eos r then Some d else None); cbn; lia.
      * cbn [mbind option_bind Nat.b2n Nat.add].
        destruct (alt months_of_year s) as [[m r]|]; [|cbn; lia].
        cbn [mbind option_bind].
        destruct (lit " " r) as [r1|]; [|cbn; lia].
        cbn [mbind option_bind].
        destruct (digits1 r1) as [[d r2]|]; [|cbn; lia].
        cbn [mbind option_bind].
        destruct (eos r2) eqn:He.
        -- destruct (eos_inv _ He) as [->| ->]; vm_compute; lia.
        -- cbn [Nat.b2n Nat.add].
           destruct (lit ", " r2) as [r3|]; cbn [mbind option_bind]; [|cbn; lia].
           destruct (digits1 r3) as [[y r4]|]; cbn [mbind option_bind];
             [destruct (eos r4)|]; cbn; lia.
Qed.


Lemma resolve_digits origin ds rest :
  numeral ds = true ->
  match rest with EmptyString => True | String c _ => is_digit c = false end ->
  resolve_tm origin (ds +:+ rest)
  = if m6 (ds +:+ rest) then Ok (gmtime origin)
    else match digits_then "m ago" (ds +:+ rest) with
         | Some g => Ok (gmtime (origin - 60 * int g))
         | None =>
             match digits_then "h ago" (ds +:+ rest) with
             | Some g => Ok (gmtime (origin - 3600 * int g))
             | None => Raise (uninterpreted (ds +:+ rest))
             end
         end.
Proof.
  intros Hds Hrest. pose proof (digits1_numeral ds rest Hds Hrest) as Hd.
  destruct (digits1_no_name _ _ _ Hd) as (H0 & Hday & Hmonth).
  unfold resolve_tm, m1, m2, m3, m4, m5. rewrite H0, Hday, Hmonth.
  cbn [orb mbind option_bind]. reflexivity.
Qed.

(** X2.  For every non-empty string [N] of at most 4300 digits,
    leading zeros included: if the instant [60 * N] seconds before the
    origin is one that [time.gmtime] accepts, ["<N>m ago"] resolves to
    it, and if the instant [3600 * N] seconds before the origin is,
    ["<N>h ago"] resolves to it. *)
Theorem minutes_and_hours_are_subtracted (origin : Z) (ds : string) :
  numeral ds = true ->
  (String.length ds <= int_max_str_digits)%nat ->
  (representable (origin - 60 * int ds) ->
   resolve_tm origin (ds +:+ "m ago") = Ok (gmtime (origin - 60 * int ds)))
  /\ (representable (origin - 3600 * int ds) ->
      resolve_tm origin (ds +:+ "h ago") = Ok (gmtime (origin - 3600 * int ds))).
Proof.
  intros Hds _. split; intros _.
  - rewrite resolve_digits by (exact Hds || reflexivity).
    unfold m6, digits_then.
    rewrite (digits1_numeral ds "m ago" Hds) by reflexivity. reflexivity.
  - rewrite resolve_digits by (exact Hds || reflexivity).
    unfold m6, digits_then.
    rewrite (digits1_numeral ds "h ago" Hds) by reflexivity. reflexivity.
Qed.

(** X3.  ["just now"] and every clock time ["<N>am"] or ["<N>pm"]
    resolve to the origin itself, whatever the number is: the hour is
    not checked and not used. *)
Theorem clock_times_resolve_to_origin (origin : Z) (ds : string) :
  numeral ds = true ->
  resolve_tm origin (ds +:+ "am") = Ok (gmtime origin)
  /\ resolve_tm origin (ds +:+ "pm") = Ok (gmtime origin)
  /\ resolve_tm origin "just now" = Ok (gmtime origin).
Proof.
  intros Hds. split; [|split; [|reflexivity]].
  - rewrite resolve_digits by (exact Hds || reflexivity). unfold m6.
    rewrite (digits1_numeral ds "am" Hds) by reflexivity. reflexivity.
  - rewrite resolve_digits by (exact Hds || reflexivity). unfold m6.
    rewrite (digits1_numeral ds "pm" Hds) by reflexivity. reflexivity.
Qed.




Lemma m5_excludes s : is_Some (m5 s) ->
  m0 s = false /\ m6 s = false /\ m1 s = None /\ m2 s = None
  /\ m3 s = None /\ m4 s = None.
Proof.
  intros [g H]. unfold m5 in H.
  destruct (alt months_of_year s) as [[m r]|] eqn:Halt; [|discriminate].
  destruct (month_name_no_day _ _ _ Halt) as (H0 & Hday & Hdig).
  unfold m6, m1, m2, m3, m4, digits_then. rewrite H0, Hday, Hdig, Halt.
  cbn [mbind option_bind] in *.
  destruct (lit " " r) as [r1|]; [|discriminate]. cbn [mbind option_bind] in *.
  destruct (digits1 r1) as [[d r2]|]; [|discriminate].
  cbn [mbind option_bind] in *.
  destruct (lit ", " r2) as [r3|] eqn:Hlit; [|discriminate].
  rewrite (lit_inv _ _ _ Hlit). repeat split.
Qed.

(** X5.  A string of the form ["<Month> <Day>, <Year>"] is resolved by
    [strptime] alone: no earlier branch takes it and the result is the
    same for every origin. *)
Theorem absolute_dates_ignore_origin (o1 o2 : Z) (s : string) :
  is_Some (m5 s) ->
  resolve_tm o1 s = strptime s /\ resolve_tm o1 s = resolve_tm o2 s.
Proof.
  intros H5. destruct (m5_excludes s H5) as (H0 & H6 & H1 & H2 & H3 & H4).
  assert (Hres : forall o, resolve_tm o s = strptime s).
  { intros o. unfold resolve_tm. rewrite H0, H6, H1, H2, H3, H4.
    destruct H5 as [g ->]. reflexivity. }
  split; [apply Hres|]. rewrite !Hres. reflexivity.
Qed.

Lemma walk_back_gmtime origin hit n : forall offset tm,
  walk_back origin hit offset n = Some tm -> exists secs, tm = gmtime secs.
Proof.
  induction n as [|n IH]; intros offset tm; cbn [walk_back]; [discriminate|].
  destruct (hit _); [intros [= <-]; eexists; reflexivity | apply IH].
Qed.

Lemma index_of_range x l i : index_of x l = Some i -> 0 <= i < Z.of_nat (length l).
Proof.
  revert i. induction l as [|y l IH]; intros i; cbn [index_of]; [discriminate|].
  destruct (String.eqb x y); [intros [= <-]; cbn [length]; lia|].
  destruct (index_of x l) as [j|]; [|discriminate].
  cbn. intros [= <-]. specialize (IH j eq_refl). cbn [length]. lia.
Qed.

Lemma strptime_mon_range s tm : strptime s = Ok tm -> 1 <= tm_mon tm <= 12.
Proof.
  unfold strptime. destruct (m5 s) as [[[m d] y]|]; [|discriminate].
  destruct (_ && _); [|discriminate]. intros [= <-].
  change (1 <= default 0 (index_of m months_of_year) + 1 <= 12).
  destruct (index_of m months_of_year) as [i|] eqn:Hi.
  - pose proof (index_of_range _ _ _ Hi) as Hr.
    change (Z.of_nat (length months_of_year)) with 12 in Hr.
    change (default 0 (Some i)) with i. lia.
  - change (default 0 (@None Z)) with 0. lia.
Qed.

Lemma resolve_tm_mon_range origin s tm :
  resolve_tm origin s = Ok tm -> 1 <= tm_mon tm <= 12.
Proof.
  unfold resolve_tm.
  destruct (m0 s || m6 s); [intros [= <-]; apply gmtime_mon_range|].
  destruct (m1 s); [intros [= <-]; apply gmtime_mon_range|].
  destruct (m2 s); [intros [= <-]; apply gmtime_mon_range|].
  destruct (m3 s).
  { destruct (walk_back _ _ _ _) as [tm'|] eqn:Hw; [|discriminate].
    intros [= <-]. destruct (walk_back_gmtime _ _ _ _ _ Hw) as [secs ->].
    apply gmtime_mon_range. }
  destruct (m4 s) as [[gm gd]|].
  { destruct (walk_back _ _ _ _) as [tm'|] eqn:Hw; [|discriminate].
    intros [= <-]. destruct (walk_back_gmtime _ _ _ _ _ Hw) as [secs ->].
    apply gmtime_mon_range. }
  destruct (m5 s); [apply strptime_mon_range | discriminate].
Qed.

(** X6.  What [parse_quora_date] returns for a resolved date: the month
    of a resolved date is between 1 and 12; for December the function
    raises [IndexError]; for the other months it returns the name at
    position [tm_mon] of [months_of_year], which is never ["Jan"],
    followed by the day and the year. *)
Theorem returned_text_names_next_month (origin : Z) (s : string) :
  match resolve_tm origin s with
  | Raise ex => parse_quora_date origin s = Raise ex
  | Ok tm =>
      1 <= tm_mon tm <= 12
      /\ (tm_mon tm = 12 -> parse_quora_date origin s = Raise IndexError)
      /\ (tm_mon tm <= 11 ->
          exists mon,
            months_of_year !! Z.to_nat (tm_mon tm) = Some mon
            /\ mon <> "Jan"
            /\ parse_quora_date origin s
               = Ok (mon +:+ " " +:+ of_Z (tm_mday tm) +:+ ", "
                     +:+ of_Z (tm_year tm)))
  end.
Proof.
  unfold parse_quora_date.
  destruct (resolve_tm origin s) as [tm|ex] eqn:Hres; [|reflexivity].
  pose proof (resolve_tm_mon_range _ _ _ Hres) as Hr. cbn [rbind].
  split; [exact Hr|]. split; [apply render_december|].
  intros Hle. destruct (render_month_after tm ltac:(lia)) as (mon & Hmon & Hrender).
  exists mon. split; [exact Hmon|]. split; [|exact Hrender].
  intros ->.
  assert (Hc : tm_mon tm = 1 \/ tm_mon tm = 2 \/ tm_mon tm = 3
               \/ tm_mon tm = 4 \/ tm_mon tm = 5 \/ tm_mon tm = 6
               \/ tm_mon tm = 7 \/ tm_mon tm = 8 \/ tm_mon tm = 9
               \/ tm_mon tm = 10 \/ tm_mon tm = 11) by lia.
  repeat (destruct Hc as [Hc|Hc]; [rewrite Hc in Hmon; discriminate|]).
  rewrite Hc in Hmon; discriminate.
Qed.

Lemma minutes_and_hours_are_subtracted_witness :
  numeral "090" = true
  /\ (String.length "090" <= int_max_str_digits)%nat
  /\ representable (1422748800 - 3600 * int "090")
  /\ resolve_tm 1422748800 "090m ago" = Ok (gmtime (1422748800 - 60 * 90))
  /\ resolve_tm 1422748800 "090h ago" = Ok (gmtime (1422748800 - 3600 * 90)).
Proof.
  assert (Hlen : (String.length "090" <= int_max_str_digits)%nat)
    by (vm_compute; lia).
  assert (Hm : representable (1422748800 - 60 * int "090"))
    by (vm_compute; split; [discriminate | reflexivity]).
  assert (Hh : representable (1422748800 - 3600 * int "090"))
    by (vm_compute; split; [discriminate | reflexivity]).
  split; [reflexivity|]. split; [exact Hlen|]. split; [exact Hh|].
  destruct (minutes_and_hours_are_subtracted 1422748800 "090" eq_refl Hlen)
    as [Hmin Hhour].
  split; [exact (Hmin Hm) | exact (Hhour Hh)].
Defined.

Lemma clock_times_resolve_to_origin_witness :
  numeral "99" = true
  /\ resolve_tm 1422748800 "99am" = Ok (gmtime 1422748800)
  /\ resolve_tm 1422748800 "99pm" = Ok (gmtime 1422748800)
  /\ resolve_tm 1422748800 "just now" = Ok (gmtime 1422748800).
Proof.
  split; [reflexivity|].
  apply (clock_times_resolve_to_origin 1422748800 "99"). reflexivity.
Defined.


Lemma absolute_dates_ignore_origin_witness :
  is_Some (m5 "Jan 5, 2014")
  /\ resolve_tm 0 "Jan 5, 2014" = strptime "Jan 5, 2014"
  /\ resolve_tm 0 "Jan 5, 2014" = resolve_tm 1422748800 "Jan 5, 2014".
Proof.
  assert (H : is_Some (m5 "Jan 5, 2014")) by (eexists; reflexivity).
  split; [exact H|].
  exact (absolute_dates_ignore_origin 0 1422748800 "Jan 5, 2014" H).
Defined.

Lemma returned_text_names_next_month_witness :
  exists mon,
    months_of_year !! 1%nat = Some mon
    /\ mon <> "Jan"
    /\ parse_quora_date 1422748800 "3h ago" = Ok (mon +:+ " 31, 2015").
Proof.
  pose proof (returned_text_names_next_month 1422748800 "3h ago") as H.
  revert H.
  destruct (resolve_tm 1422748800 "3h ago") as [tm|ex] eqn:E;
    [|exfalso; revert E; vm_compute; discriminate].
  vm_compute in E. injection E as <-.
  intros (_ & _ & H). apply H. vm_compute. discriminate.
Defined.

End DateResolverMore.


(** ** ImageLocalizer: file names and failures *)

Module ImageLocalizerMore.
Import Str StrFacts Dom ImageLocalizer ImageLocalizerFacts TreeRewriter
       TreeRewriterFacts Notions MoreNotions PatternFacts.

Lemma all_chars_app p a b :
  all_chars p (a +:+ b) = all_chars p a && all_chars p b.
Proof.
  induction a as [|c a IH]; [reflexivity|].
  rewrite app_cons. cbn [all_chars]. rewrite IH, andb_assoc. reflexivity.
Qed.

Lemma url_segment_chars src seg :
  url_segment src = Some seg -> seg <> "" /\ all_chars not_sep seg = true.
Proof.
  induction src as [|c r IH]; cbn [url_segment]; [discriminate|].
  destruct (Ascii.eqb c "/"); [|exact IH].
  destruct (span not_sep r) as [run tail] eqn:E.
  pose proof (span_chars _ _ _ _ E) as Hrun.
  destruct run as [|a run]; [exact IH|].
  destruct tail as [|q tail].
  - intros [= <-]. split; [discriminate | exact Hrun].
  - destruct (Ascii.eqb q "?"); [|exact IH].
    intros [= <-]. split; [discriminate | exact Hrun].
Qed.

(** X7.  The file name derived from an image URL (lines 190-195) is
    never empty, always ends in [.png], and holds neither [/] nor [?]:
    joined to the output directory it names a file directly inside
    that directory. *)
Theorem derived_name_is_a_plain_png_name (src f : string) :
  derive_filename src = Ok f ->
  f <> "" /\ endswith ".png" f = true /\ all_chars not_sep f = true.
Proof.
  unfold derive_filename.
  destruct (url_segment src) as [seg|] eqn:Hseg; [|discriminate].
  destruct (url_segment_chars _ _ Hseg) as [Hne Hchars].
  destruct (endswith ".png" seg) eqn:Hend; intros [= <-].
  - repeat split; assumption.
  - split; [destruct seg; [congruence|discriminate]|].
    split; [apply endswith_app|].
    rewrite all_chars_app, Hchars. reflexivity.
Qed.

Lemma no_slash_no_segment src :
  all_chars (fun c => negb (Ascii.eqb c "/")) src = true ->
  url_segment src = None.
Proof.
  induction src as [|c r IH]; [reflexivity|]. cbn [all_chars url_segment].
  intros H. apply andb_true_iff in H as [Hc Hr].
  apply negb_true_iff in Hc. rewrite Hc. exact (IH Hr).
Qed.

(** X8.  An image URL without any [/] has no file-name segment: the
    [ValueError] raised at line 192 is caught at line 231, the only
    effect is the warning about the image name, nothing is fetched and
    no file is created, and the image keeps its remote source. *)
Theorem url_without_slash_stays_remote (e : env) (src : string) (w : world) :
  all_chars (fun c => negb (Ascii.eqb c "/")) src = true ->
  localize e src w
  = (Remote,
     print ("[WARNING] Failed to determine image name from URL " +:+ src) w).
Proof.
  intros H. unfold localize, try_localize, derive_filename.
  rewrite (no_slash_no_segment src H). reflexivity.
Qed.

Lemma files_print msg w : files (print msg w) = files w.
Proof. reflexivity. Qed.

Lemma try_localize_failure_restores e src w ex w' :
  (forall p, remove_fails e p = false) ->
  try_localize e src w = (Raise ex, w') -> files w' = files w.
Proof.
  intros Hrm. unfold try_localize.
  destruct (derive_filename src) as [f|ex0]; [|intros [= _ <-]; reflexivity].
  destruct (files w !! _) as [content|] eqn:Hfile; [discriminate|].
  destruct (open_errno e _); [intros [= _ <-]; reflexivity|].
  unfold download. rewrite Hrm.
  destruct (urlopen e src) as [ex0|img].
  - intros [= _ <-]. cbn [files set_files fetch].
    rewrite files_log_if_v. cbn [files set_files]. rewrite delete_insert_id; [reflexivity|exact Hfile].
  - destruct (write_errno e _); [|discriminate].
    intros [= _ <-]. cbn [files set_files fetch].
    rewrite files_log_if_v. cbn [files set_files]. rewrite delete_insert_id; [reflexivity|exact Hfile].
Qed.

(** X9.  When [os.remove] works and the fetch fails only with
    [URLError], [OSError] or [ValueError], a localization that does
    not end with a local file name is a failure the branch handles,
    and it leaves the files as they were: the empty file created at
    line 197 is removed again by the handler of lines 213-220 before
    the exception is re-raised.  (An exception outside [Exception],
    such as [KeyboardInterrupt], passes that handler by and leaves the
    file; it is outside the hypothesis.) *)
Theorem failed_localization_leaves_no_file
        (e : env) (src : string) (w w' : world) (r : localized) :
  (forall p, remove_fails e p = false) ->
  (forall url ex, urlopen e url = inl ex -> handled ex = true) ->
  localize e src w = (r, w') ->
  (forall f, r <> Local f) ->
  r = Remote /\ files w' = files w.
Proof.
  intros Hrm Hnet Hcall Hr. split.
  - destruct r as [f| |ex]; [exfalso; exact (Hr f eq_refl) | reflexivity |].
    exfalso. exact (TreeRewriterClaims.localize_handles e src w Hnet ex w' Hcall).
  - unfold localize in Hcall.
    destruct (try_localize e src w) as [[f|ex] w1] eqn:Ht.
    + injection Hcall as <- <-. exfalso. exact (Hr f eq_refl).
    + pose proof (try_localize_failure_restores _ _ _ _ _ Hrm Ht) as Hfiles.
      destruct ex; injection Hcall as <- <-; exact Hfiles.
Qed.

Lemma derived_name_is_a_plain_png_name_witness :
  derive_filename "http://qph.is.quoracdn.net/main-qimg/photo.jpg?convert=1"
  = Ok "photo.jpg.png"
  /\ "photo.jpg.png" <> ""
  /\ endswith ".png" "photo.jpg.png" = true
  /\ all_chars not_sep "photo.jpg.png" = true.
Proof.
  split; [reflexivity|].
  apply (derived_name_is_a_plain_png_name
           "http://qph.is.quoracdn.net/main-qimg/photo.jpg?convert=1").
  reflexivity.
Defined.

Lemma url_without_slash_stays_remote_witness :
  localize sample_env "photo.jpg" empty_world
  = (Remote,
     print "[WARNING] Failed to determine image name from URL photo.jpg"
           empty_world).
Proof.
  apply (url_without_slash_stays_remote sample_env "photo.jpg" empty_world).
  reflexivity.
Defined.

Lemma failed_localization_leaves_no_file_witness :
  (localize offline_env "http://host/a.png" empty_world).1 = Remote
  /\ fetched (localize offline_env "http://host/a.png" empty_world).2
     = ["http://host/a.png"]
  /\ files (localize offline_env "http://host/a.png" empty_world).2
     = files empty_world.
Proof.
  split; [reflexivity|]. split; [reflexivity|].
  apply (failed_localization_leaves_no_file
           offline_env "http://host/a.png" empty_world
           (localize offline_env "http://host/a.png" empty_world).2
           (localize offline_env "http://host/a.png" empty_world).1).
  - intros p. reflexivity.
  - intros url ex H. injection H as <-. reflexivity.
  - reflexivity.
  - intros f. discriminate.
Defined.

End ImageLocalizerMore.

(** ** The effects of a rewrite *)

Module RewriteEffects.
Import Str StrFacts Dom ImageLocalizer ImageLocalizerFacts TreeRewriter
       TreeRewriterFacts Notions MoreNotions PatternFacts.

Section frame.
Variable e : env.
Variable R : world -> world -> Prop.
Hypothesis R_refl : forall w, R w w.
Hypothesis R_trans : forall w1 w2 w3, R w1 w2 -> R w2 w3 -> R w1 w3.
Hypothesis R_warn : forall msg w,
  String.prefix "[WARNING]" msg = true -> R w (print msg w).
Hypothesis R_image : forall c w, R w (image e c w).2.

Lemma step_frame c w :
  (forall w, R w (cleanup_tree e c w).2) -> R w (step (cleanup_tree e) e c w).2.
Proof.
  intros Hrec. unfold step.
  destruct (classify c); try apply R_refl.
  - destruct c as [d|d|t a kids]; [apply R_refl..|].
    specialize (Hrec w). destruct (cleanup_tree e (Element t a kids) w) as [o w'].
    destruct (raised o); exact Hrec.
  - destruct (embed e c); [apply R_refl | apply R_warn; reflexivity].
  - destruct (inline_code c) as [|[]]; try apply R_refl.
    apply R_warn. reflexivity.
  - destruct c as [d|d|t a kids]; [apply R_refl..|].
    specialize (Hrec w). destruct (cleanup_tree e (Element t a kids) w) as [o w'].
    destruct (raised o); exact Hrec.
  - destruct c as [d|d|t a kids]; [apply R_refl..|].
    specialize (Hrec w). destruct (cleanup_tree e (Element t a kids) w) as [o w'].
    destruct (raised o); exact Hrec.
  - apply R_image.
  - apply R_warn. reflexivity.
Qed.

Lemma cleanup_tree_frame src : forall w, R w (cleanup_tree e src w).2.
Proof.
  induction src as [d|d|t a kids IH] using node_ind'; intros w;
    [apply R_refl..|].
  cbn [cleanup_tree]. revert IH.
  apply (loop_ind (step (cleanup_tree e) e)
           (fun l w r =>
              Forall (fun c => forall w, R w (cleanup_tree e c w).2) l ->
              R w r.2)).
  - intros w0 _. apply R_refl.
  - intros c rest w0 out c' w1 o w2 E _ IHrest Hall.
    apply Forall_cons in Hall as [Hc Hrest].
    pose proof (step_frame c w0 Hc) as Hstep. rewrite E in Hstep.
    exact (R_trans _ _ _ Hstep (IHrest Hrest)).
  - intros c w0 out w1 E Hall. apply Forall_cons in Hall as [Hc _].
    pose proof (step_frame c w0 Hc) as Hstep. rewrite E in Hstep. exact Hstep.
  - intros c s rest w0 out w1 o w2 E _ IHrest Hall.
    apply Forall_cons in Hall as [Hc Hall].
    apply Forall_cons in Hall as [_ Hrest].
    pose proof (step_frame c w0 Hc) as Hstep. rewrite E in Hstep.
    exact (R_trans _ _ _ Hstep (IHrest Hrest)).
  - intros c rest w0 out c' ex w1 E Hall. apply Forall_cons in Hall as [Hc _].
    pose proof (step_frame c w0 Hc) as Hstep. rewrite E in Hstep. exact Hstep.
Qed.
End frame.

Lemma keeps_files_refl w : keeps_files w w.
Proof. intros p c H. exact H. Qed.

Lemma keeps_files_trans w1 w2 w3 :
  keeps_files w1 w2 -> keeps_files w2 w3 -> keeps_files w1 w3.
Proof. intros H12 H23 p c H. apply H23, H12, H. Qed.

Lemma try_localize_keeps_files e src w :
  keeps_files w (try_localize e src w).2.
Proof.
  unfold try_localize.
  destruct (derive_filename src) as [f|ex]; [|apply keeps_files_refl].
  destruct (files w !! _) as [content|] eqn:Hfile.
  { intros p c H. cbn [snd]. rewrite files_log_if_v. exact H. }
  destruct (open_errno e _); [apply keeps_files_refl|].
  set (path := output_dir e +:+ "/" +:+ f) in *.
  assert (Hne : forall p c, files w !! p = Some c -> path <> p).
  { intros p c H ->. congruence. }
  unfold download.
  destruct (urlopen e src) as [ex|img];
    [|destruct (write_errno e path)];
    try destruct (remove_fails e path);
    intros p c H; specialize (Hne p c H);
    cbn [snd files set_files fetch print]; rewrite ?files_log_if_v;
    cbn [files set_files];
    rewrite ?lookup_delete_ne, ?lookup_insert_ne by exact Hne; exact H.
Qed.

Lemma image_keeps_files e c w : keeps_files w (image e c w).2.
Proof.
  unfold image. destruct (no_download e); [apply keeps_files_refl|].
  unfold localize.
  pose proof (try_localize_keeps_files e
                (if String.eqb (getAttribute c "master_src") ""
                 then getAttribute c "src" else getAttribute c "master_src") w)
    as H.
  destruct (try_localize e _ w) as [[f|ex] w1]; cbn [snd] in H;
    [exact H|]. destruct ex; exact H.
Qed.

(** X10.  A rewrite never removes or overwrites a file that existed
    before it: files are created with [O_EXCL] (line 197), and the only
    file ever removed or written is one the same call created. *)
Theorem rewrite_keeps_existing_files
        (e : env) (src : node) (w : world) (p content : string) :
  files w !! p = Some content ->
  files (cleanup_tree e src w).2 !! p = Some content.
Proof.
  revert p content.
  apply (cleanup_tree_frame e keeps_files keeps_files_refl keeps_files_trans).
  - intros msg w0 _ p c H. exact H.
  - apply image_keeps_files.
Qed.

(** X11.  With [--no_download] a rewrite of any tree creates no file
    and fetches no URL: the guard of line 184 is the only way into the
    code that touches the file system or the network. *)
Theorem no_download_touches_nothing (e : env) (src : node) (w : world) :
  no_download e = true ->
  files (cleanup_tree e src w).2 = files w
  /\ fetched (cleanup_tree e src w).2 = fetched w.
Proof.
  intros Hoff.
  apply (cleanup_tree_frame e
           (fun w w' => files w' = files w /\ fetched w' = fetched w)).
  - intros w0. split; reflexivity.
  - intros w1 w2 w3 [Hf12 Hn12] [Hf23 Hn23]. split; congruence.
  - intros msg w0 _. split; reflexivity.
  - intros c w0. unfold image. rewrite Hoff. split; reflexivity.
Qed.

Lemma only_logs_refl e w : only_logs e w w.
Proof.
  split; [exists []|exists []]; rewrite ?app_nil_r; [split|]; reflexivity.
Qed.

Lemma only_logs_trans e w1 w2 w3 :
  only_logs e w1 w2 -> only_logs e w2 w3 -> only_logs e w1 w3.
Proof.
  intros [(l1 & Hs1 & Hl1) (u1 & Hu1)] [(l2 & Hs2 & Hl2) (u2 & Hu2)].
  split.
  - exists (l1 ++ l2). rewrite Hs2, Hs1, <- List.app_assoc. split; [reflexivity|].
    rewrite forallb_app, Hl1, Hl2. reflexivity.
  - exists (u1 ++ u2). rewrite Hu2, Hu1, <- List.app_assoc. reflexivity.
Qed.

Lemma only_logs_print e msg w :
  log_line e msg = true -> only_logs e w (print msg w).
Proof.
  intros H. split; [exists [msg]|exists []]; cbn [stderr fetched print];
    rewrite ?app_nil_r; [split; [reflexivity|]|reflexivity].
  cbn [forallb]. rewrite H. reflexivity.
Qed.

Lemma only_logs_warn e msg w :
  String.prefix "[WARNING]" msg = true -> only_logs e w (print msg w).
Proof. intros H. apply only_logs_print. unfold log_line. rewrite H. reflexivity. Qed.

Lemma only_logs_log_if_v e msg w : only_logs e w (log_if_v e msg w).
Proof.
  unfold log_if_v. destruct (verbose e) eqn:Hv; [|apply only_logs_refl].
  apply only_logs_print. unfold log_line. rewrite Hv.
  replace (String.prefix "[DEBUG]" ("[DEBUG] " +:+ msg)) with true by reflexivity.
  apply orb_true_r.
Qed.

Lemma only_logs_fetch e url w : only_logs e w (fetch url w).
Proof.
  split; [exists []|exists [url]]; cbn [stderr fetched fetch];
    rewrite ?app_nil_r; [split|]; reflexivity.
Qed.

Lemma only_logs_set_files e f w : only_logs e w (set_files f w).
Proof.
  split; [exists []|exists []]; cbn [stderr fetched set_files];
    rewrite ?app_nil_r; [split|]; reflexivity.
Qed.

Lemma download_only_logs e src f path w :
  only_logs e w (download e src f path w).2.
Proof.
  unfold download.
  assert (H1 : only_logs e w
                 (fetch src (log_if_v e ("Downloading image from " +:+ src) w))).
  { eapply only_logs_trans; [apply only_logs_log_if_v | apply only_logs_fetch]. }
  destruct (urlopen e src) as [ex|img];
    [|destruct (write_errno e path)];
    try destruct (remove_fails e path); cbn [snd];
    (eapply only_logs_trans; [exact H1|]);
    first [apply only_logs_set_files | apply only_logs_warn; reflexivity].
Qed.

Lemma try_localize_only_logs e src w : only_logs e w (try_localize e src w).2.
Proof.
  unfold try_localize.
  destruct (derive_filename src) as [f|ex]; [|apply only_logs_refl].
  destruct (files w !! _); [apply only_logs_log_if_v|].
  destruct (open_errno e _); [apply only_logs_refl|].
  pose proof (download_only_logs e src f (output_dir e +:+ "/" +:+ f)
                (set_files (<[output_dir e +:+ "/" +:+ f := ""]> (files w)) w))
    as H.
  destruct (download e src f _ _) as [[u|ex] w2]; cbn [snd] in *;
    (eapply only_logs_trans; [apply only_logs_set_files | exact H]).
Qed.

Lemma image_only_logs e c w : only_logs e w (image e c w).2.
Proof.
  unfold image. destruct (no_download e); [apply only_logs_refl|].
  unfold localize.
  pose proof (try_localize_only_logs e
                (if String.eqb (getAttribute c "master_src") ""
                 then getAttribute c "src" else getAttribute c "master_src") w)
    as H.
  destruct (try_localize e _ w) as [[f|ex] w1]; cbn [snd] in H; [exact H|].
  destruct ex; cbn [snd]; try exact H;
    (eapply only_logs_trans; [exact H | apply only_logs_warn; reflexivity]).
Qed.

(** X12.  A rewrite of any tree only adds to the error stream and to
    the list of fetched URLs, and every line it prints starts with
    [[WARNING]], or with [[DEBUG]] when [--verbose] is set (without
    [--verbose] it prints warnings only). *)
Theorem rewrite_only_logs_and_fetches (e : env) (src : node) (w : world) :
  (exists lines,
      stderr (cleanup_tree e src w).2 = stderr w ++ lines
      /\ forallb (log_line e) lines = true)
  /\ exists urls, fetched (cleanup_tree e src w).2 = fetched w ++ urls.
Proof.
  apply (cleanup_tree_frame e (only_logs e)
           (only_logs_refl e) (only_logs_trans e)).
  - intros msg w0 H. apply only_logs_warn. exact H.
  - apply image_only_logs.
Qed.

Lemma rewrite_keeps_existing_files_witness :
  let w := {| files := {[ "out/old.png" := "old bytes" ]};
              fetched := []; stderr := [] |} in
  let src := Element "div" ∅
               [Element "img" {[ "src" := "http://host/new.png" ]} []] in
  files (cleanup_tree sample_env src w).2 !! "out/new.png"
  = Some "image at http://host/new.png"
  /\ files (cleanup_tree sample_env src w).2 !! "out/old.png"
     = Some "old bytes".
Proof.
  intros w src. split; [reflexivity|].
  apply (rewrite_keeps_existing_files sample_env src w "out/old.png" "old bytes").
  reflexivity.
Defined.

Lemma no_download_touches_nothing_witness :
  let src := Element "div" ∅
               [Element "img" {[ "src" := "http://host/new.png" ]} []] in
  files (cleanup_tree no_download_env src empty_world).2 = files empty_world
  /\ fetched (cleanup_tree no_download_env src empty_world).2
     = fetched empty_world.
Proof.
  intros src.
  apply (no_download_touches_nothing no_download_env src empty_world).
  reflexivity.
Defined.

End RewriteEffects.

(** ** TreeRewriter: the branches one by one *)

Module TreeRewriterMore.
Import Str StrFacts Dom ImageLocalizer ImageLocalizerFacts TreeRewriter
       TreeRewriterFacts Notions MoreNotions PatternFacts.

(** X13.  Whenever the embed branch (lines 127-142) produces a node,
    that node is a childless [iframe] of width 525 and height 295 whose
    [src] is not protocol-relative: a source starting with [//] was
    given the [http:] scheme. *)
Theorem embedded_iframe_is_normalized (e : env) (c n : node) :
  embed e c = Ok n ->
  exists a,
    n = Element "iframe" a []
    /\ a !! "width" = Some "525"
    /\ a !! "height" = Some "295"
    /\ startswith "//" (getAttribute n "src") = false.
Proof.
  unfold embed.
  destruct (subscript _ 1) as [body|ex]; [|discriminate]. cbn [rbind].
  destruct (firstChild body) as [[d|d|t a kids]|]; try discriminate.
  destruct (String.eqb_spec t "iframe") as [->|]; [|discriminate].
  cbn [negb clone_shallow].
  destruct (startswith "//" (getAttribute (Element "iframe" a []) "src")) eqn:Hsrc;
    intros [= <-]; cbn [setAttribute]; eexists; (split; [reflexivity|]).
  - split; [|split].
    + rewrite lookup_insert_ne by discriminate. apply lookup_insert_eq.
    + apply lookup_insert_eq.
    + cbn [getAttribute]. rewrite !lookup_insert_ne by discriminate.
      rewrite lookup_insert_eq. reflexivity.
  - split; [|split].
    + rewrite lookup_insert_ne by discriminate. apply lookup_insert_eq.
    + apply lookup_insert_eq.
    + cbn [getAttribute] in *. rewrite !lookup_insert_ne by discriminate.
      exact Hsrc.
Qed.

Lemma title_step rec e c w :
  is_title c = true -> step rec e c w = (Moved [Element "h1" ∅ [c]], w).
Proof.
  unfold is_title, step. destruct (classify c); try discriminate; reflexivity.
Qed.

(** X14.  The title branches (lines 112-123) move the child out of
    the list the loop is iterating over, so the iteration passes over
    the sibling that follows a title: that sibling is neither rewritten
    nor appended, it stays in the source, and the rewrite goes on with
    the siblings after it. *)
Theorem sibling_after_title_is_passed_over
        (e : env) (t : string) (a : gmap string string)
        (title next : node) (rest : list node) (w : world) :
  is_title title = true ->
  cleanup_tree e (Element t a (title :: next :: rest)) w
  = let '(o, w') := cleanup_tree e (Element t a rest) w in
    ({| appended := Element "h1" ∅ [title] :: appended o;
        kept := next :: kept o;
        raised := raised o |}, w').
Proof.
  intros Htitle. cbn [cleanup_tree loop]. rewrite (title_step _ _ _ _ Htitle).
  destruct (loop _ rest w) as [o w']. reflexivity.
Qed.

Lemma unwrap_step rec e tag attrs kids w :
  classify (Element tag attrs kids) = RUnwrap ->
  step rec e (Element tag attrs kids) w
  = let '(o, w') := rec (Element tag attrs kids) w in
    match raised o with
    | None => (Emit (appended o) (Element tag attrs (kept o)), w')
    | Some ex => (Fail (appended o) (Element tag attrs (kept o)) ex, w')
    end.
Proof. intros Hc. unfold step. rewrite Hc. reflexivity. Qed.

(** X15.  A [span] or [div] that no earlier rule takes is
    transparent (lines 164-166): rewriting a parent whose only child
    is such a wrapper appends exactly what rewriting the wrapper's
    children directly would append, with the same exception if any and
    the same effects; the wrapper itself stays in the source. *)
Theorem bare_wrapper_is_transparent
        (e : env) (t tag : string) (a attrs : gmap string string)
        (kids : list node) (w : world) :
  classify (Element tag attrs kids) = RUnwrap ->
  let direct := cleanup_tree e (Element t a kids) w in
  let wrapped := cleanup_tree e (Element t a [Element tag attrs kids]) w in
  appended wrapped.1 = appended direct.1
  /\ raised wrapped.1 = raised direct.1
  /\ kept wrapped.1 = [Element tag attrs (kept direct.1)]
  /\ wrapped.2 = direct.2.
Proof.
  intros Hc direct wrapped. unfold wrapped, direct.
  cbn [cleanup_tree loop]. rewrite (unwrap_step _ _ _ _ _ _ Hc).
  cbn [cleanup_tree].
  destruct (loop (step (cleanup_tree e) e) kids w) as [o w'].
  destruct (raised o) as [ex|] eqn:Hr; cbn [fst snd appended raised kept];
    rewrite ?app_nil_r, ?Hr; repeat split; reflexivity.
Qed.

Lemma spans_of_pieces pieces :
  flat_map (elements_in "div") (map code_span pieces) = []
  /\ flat_map (elements_in "span") (map code_span pieces) = map code_span pieces.
Proof.
  induction pieces as [|p pieces [IHd IHs]]; [split; reflexivity|].
  cbn [map flat_map]. rewrite IHd, IHs. split; reflexivity.
Qed.

Lemma text_of_pieces pieces :
  map get_text_content (map code_span pieces) = map snd pieces.
Proof.
  induction pieces as [|p pieces IH]; [reflexivity|].
  cbn [map]. rewrite IH. f_equal.
  unfold get_text_content, code_span. cbn [childNodes text_of].
  apply app_empty_r.
Qed.

Lemma divs_of_lines lines :
  flat_map (elements_in "div") (map code_line lines) = map code_line lines.
Proof.
  induction lines as [|l lines IH]; [reflexivity|].
  cbn [map flat_map]. rewrite IH. unfold code_line at 1.
  cbn [elements_in]. rewrite (proj1 (spans_of_pieces l.2)). reflexivity.
Qed.

Lemma texts_of_lines lines :
  map (fun div =>
         join "" (map get_text_content
                      (flat_map (elements_in "span") (childNodes div))))
      (map code_line lines)
  = map line_text lines.
Proof.
  induction lines as [|l lines IH]; [reflexivity|].
  cbn [map]. rewrite IH. f_equal.
  unfold code_line. cbn [childNodes].
  rewrite (proj2 (spans_of_pieces l.2)), text_of_pieces. reflexivity.
Qed.

(** X16.  A code-block table laid out as one [div] per line, each
    holding one [span] per piece of text, becomes
    [<pre><code>text</code></pre>] where the text is the lines joined
    by newlines and each line is the concatenation of its pieces
    (lines 235-251); the attributes of the table, of the lines and of
    the pieces are dropped. *)
Theorem code_block_joins_lines
        (tag : string) (attrs : gmap string string)
        (lines : list (gmap string string * list (gmap string string * string))) :
  code_block (Element tag attrs (map code_line lines))
  = Element "pre" ∅
      [Element "code" ∅ [Text (join newline (map line_text lines))]].
Proof.
  unfold code_block, getElementsByTagName. cbn [childNodes].
  rewrite divs_of_lines, texts_of_lines. reflexivity.
Qed.

Lemma link_step rec e c w :
  classify c = RLink ->
  exists h,
    startswith "/" h = false
    /\ (h = getAttribute c "href"
        \/ (startswith "/" (getAttribute c "href") = true
            /\ h = "http://quora.com" +:+ getAttribute c "href"))
    /\ step rec e c w
       = let '(o, w') := rec c w in
         let new_node := Element "a" {[ "href" := h ]} (appended o) in
         let child' := match c with
                       | Element tag a _ => Element tag a (kept o)
                       | _ => c
                       end in
         match raised o with
         | None => (Emit [new_node] child', w')
         | Some ex => (Fail [new_node] child' ex, w')
         end.
Proof.
  intros Hc. pose proof (TreeRewriterClaims.classified_element c) as Hel.
  rewrite Hc in Hel. destruct Hel as (tag & a & kids & ->).
  unfold step. rewrite Hc.
  destruct (startswith "/" (getAttribute (Element tag a kids) "href")) eqn:Hs.
  - eexists. split; [|split; [right; split; reflexivity|reflexivity]].
    reflexivity.
  - eexists. split; [exact Hs|]. split; [left; reflexivity|reflexivity].
Qed.

(** X17.  A link (lines 168-176) is rebuilt as a new [a] element that
    carries a single attribute, [href], and holds the rewritten
    children of the link; the [href] never starts with [/]: a
    site-relative target was prefixed with [http://quora.com], any
    other is copied. *)
Theorem link_is_rebuilt_with_absolute_href
        (e : env) (t : string) (a : gmap string string) (c : node) (w : world) :
  classify c = RLink ->
  let inner := cleanup_tree e c w in
  let outer := cleanup_tree e (Element t a [c]) w in
  exists h,
    appended outer.1 = [Element "a" {[ "href" := h ]} (appended inner.1)]
    /\ startswith "/" h = false
    /\ (h = getAttribute c "href"
        \/ (startswith "/" (getAttribute c "href") = true
            /\ h = "http://quora.com" +:+ getAttribute c "href"))
    /\ raised outer.1 = raised inner.1
    /\ outer.2 = inner.2.
Proof.
  intros Hc inner outer. unfold inner, outer.
  destruct (link_step (cleanup_tree e) e c w Hc) as (h & Hh & Hcases & Hstep).
  exists h. cbn [cleanup_tree loop] in *. rewrite Hstep.
  destruct (cleanup_tree e c w) as [o w'].
  destruct (raised o) as [ex|] eqn:Hr; cbn [fst snd appended raised];
    rewrite ?Hr; repeat split; try assumption; reflexivity.
Qed.

(** X23.  A child whose class marks it as a content footer or as
    hidden (lines 161-163) contributes nothing: the rewrite of its
    parent appends what the rewrite of the remaining siblings appends,
    prints and fetches the same, and leaves the child in the source,
    whatever the child holds. *)
Theorem skipped_child_contributes_nothing
        (e : env) (t : string) (a : gmap string string)
        (c : node) (rest : list node) (w : world) :
  classify c = RSkip ->
  cleanup_tree e (Element t a (c :: rest)) w
  = let '(o, w') := cleanup_tree e (Element t a rest) w in
    ({| appended := appended o; kept := c :: kept o; raised := raised o |}, w').
Proof.
  intros Hc. cbn [cleanup_tree loop]. unfold step at 1. rewrite Hc.
  destruct (loop _ rest w) as [o w']. reflexivity.
Qed.

(** X24.  The image branch (lines 177-233) always appends exactly one
    childless [img] that carries the attributes [src] and [alt] and no
    other, also when an exception escapes; [alt] is copied from the
    source image, and [src] is the remote source ([master_src] if
    present, else [src]) unless downloads are enabled and [src] names a
    file that now exists in the output directory. *)
Theorem rewritten_image_keeps_src_and_alt_only
        (e : env) (c : node) (w w' : world) (r : step_result) :
  image e c w = (r, w') ->
  exists attrs s,
    (r = Emit [Element "img" attrs []] c
     \/ exists ex, r = Fail [Element "img" attrs []] c ex)
    /\ attrs !! "alt" = Some (getAttribute c "alt")
    /\ attrs !! "src" = Some s
    /\ (forall k, k <> "src" -> k <> "alt" -> attrs !! k = None)
    /\ (s = (if String.eqb (getAttribute c "master_src") ""
             then getAttribute c "src" else getAttribute c "master_src")
        \/ (no_download e = false
            /\ is_Some (files w' !! (output_dir e +:+ "/" +:+ s)))).
Proof.
  unfold image. cbn [createElement setAttribute].
  set (src := if String.eqb (getAttribute c "master_src") ""
              then getAttribute c "src" else getAttribute c "master_src").
  assert (Hplain : forall v,
             (<["alt" := v]> (<["src" := src]> (∅ : gmap string string)))
               !! "alt" = Some v
             /\ (<["alt" := v]> (<["src" := src]> (∅ : gmap string string)))
                  !! "src" = Some src
             /\ forall k, k <> "src" -> k <> "alt" ->
                          (<["alt" := v]> (<["src" := src]> (∅ : gmap string string)))
                            !! k = None).
  { intros v. split; [apply lookup_insert_eq|]. split.
    - rewrite lookup_insert_ne by discriminate. apply lookup_insert_eq.
    - intros k Hs Ha. rewrite !lookup_insert_ne by congruence.
      apply lookup_empty. }
  destruct (no_download e) eqn:Hoff.
  { intros [= <- <-]. destruct (Hplain (getAttribute c "alt")) as (H1 & H2 & H3).
    eexists _, src. split; [left; reflexivity|]. auto. }
  destruct (localize e src w) as [[f| |ex] w1] eqn:Hloc; intros [= <- <-].
  - destruct (ImageLocalizerClaims.localize_local_inv _ _ _ _ _ Hloc)
      as (_ & Hfile & _).
    eexists _, f. split; [left; reflexivity|]. split; [|split; [|split]].
    + rewrite lookup_insert_ne by discriminate. apply lookup_insert_eq.
    + apply lookup_insert_eq.
    + intros k Hs Ha. rewrite !lookup_insert_ne by congruence. apply lookup_empty.
    + right. split; [reflexivity | exact Hfile].
  - destruct (Hplain (getAttribute c "alt")) as (H1 & H2 & H3).
    eexists _, src. split; [left; reflexivity|]. auto.
  - destruct (Hplain (getAttribute c "alt")) as (H1 & H2 & H3).
    eexists _, src. split; [right; eexists; reflexivity|]. auto.
Qed.

Lemma embedded_iframe_is_normalized_witness :
  let c := Element "div" {[ "data-embed" := "<iframe>" ]} [] in
  exists n a,
    embed sample_env c = Ok n
    /\ n = Element "iframe" a []
    /\ a !! "width" = Some "525"
    /\ a !! "height" = Some "295"
    /\ startswith "//" (getAttribute n "src") = false.
Proof.
  intros c.
  destruct (embed sample_env c) as [n|ex] eqn:E;
    [|exfalso; revert E; vm_compute; discriminate].
  destruct (embedded_iframe_is_normalized sample_env c n E) as (a & H).
  exists n, a. split; [reflexivity | exact H].
Defined.

Lemma sibling_after_title_is_passed_over_witness :
  let title := Element "span" {[ "class" := "question_text" ]} [Text "Why?"] in
  is_title title = true
  /\ cleanup_tree sample_env
       (Element "div" ∅ [title; Element "b" ∅ [Text "lost"]; Text "kept"])
       empty_world
     = ({| appended := [Element "h1" ∅ [title]; Text "kept"];
           kept := [Element "b" ∅ [Text "lost"]; Text "kept"];
           raised := None |}, empty_world).
Proof.
  intros title. split; [reflexivity|].
  rewrite (sibling_after_title_is_passed_over
             sample_env "div" ∅ title (Element "b" ∅ [Text "lost"])
             [Text "kept"] empty_world);
    reflexivity.
Defined.

Lemma bare_wrapper_is_transparent_witness :
  let kids := [Text "a"; Element "b" ∅ [Text "c"]] in
  classify (Element "span" ∅ kids) = RUnwrap
  /\ appended (cleanup_tree sample_env
                 (Element "div" ∅ [Element "span" ∅ kids]) empty_world).1
     = appended (cleanup_tree sample_env (Element "div" ∅ kids) empty_world).1.
Proof.
  intros kids. split; [reflexivity|].
  apply (bare_wrapper_is_transparent
           sample_env "div" "span" ∅ ∅ kids empty_world).
  reflexivity.
Defined.

Lemma link_is_rebuilt_with_absolute_href_witness :
  let c := Element "a" {[ "href" := "/profile/Someone"; "class" := "user" ]}
                   [Text "Someone"] in
  classify c = RLink
  /\ exists h,
      appended (cleanup_tree sample_env (Element "div" ∅ [c]) empty_world).1
      = [Element "a" {[ "href" := h ]}
                 (appended (cleanup_tree sample_env c empty_world).1)]
      /\ startswith "/" h = false.
Proof.
  intros c. split; [reflexivity|].
  destruct (link_is_rebuilt_with_absolute_href
              sample_env "div" ∅ c empty_world eq_refl)
    as (h & Happ & Hh & _).
  exists h. split; [exact Happ | exact Hh].
Defined.

Lemma skipped_child_contributes_nothing_witness :
  let c := Element "div" {[ "class" := "ContentFooter" ]}
                   [Element "img" {[ "src" := "http://host/a.png" ]} []] in
  classify c = RSkip
  /\ cleanup_tree sample_env (Element "div" ∅ [c; Text "shown"]) empty_world
     = ({| appended := [Text "shown"]; kept := [c; Text "shown"];
           raised := None |}, empty_world).
Proof.
  intros c. split; [reflexivity|].
  rewrite (skipped_child_contributes_nothing
             sample_env "div" ∅ c [Text "shown"] empty_world);
    reflexivity.
Defined.

Lemma rewritten_image_keeps_src_and_alt_only_witness :
  let c := Element "img" {[ "src" := "http://host/a.png"; "alt" := "a";
                            "class" := "qtext_image" ]} [] in
  exists attrs s,
    ((image sample_env c empty_world).1 = Emit [Element "img" attrs []] c
     \/ exists ex,
          (image sample_env c empty_world).1
          = Fail [Element "img" attrs []] c ex)
    /\ attrs !! "alt" = Some "a"
    /\ attrs !! "src" = Some s
    /\ attrs !! "class" = None.
Proof.
  intros c.
  destruct (rewritten_image_keeps_src_and_alt_only
              sample_env c empty_world
              (image sample_env c empty_world).2
              (image sample_env c empty_world).1 eq_refl)
    as (attrs & s & Hr & Halt & Hsrc & Hother & _).
  exists attrs, s. split; [exact Hr|]. split; [exact Halt|].
  split; [exact Hsrc|]. apply Hother; discriminate.
Defined.

End TreeRewriterMore.

(** ** PageAssembler: the scan, the footers and the run *)

Module PageAssemblerMore.
Import Str StrFacts Dom DateResolver ImageLocalizer ImageLocalizerFacts
       TreeRewriter TreeRewriterFacts PageAssembler Notions MoreNotions
       PatternFacts.

(** X18.  A run in which no input file can be read (lines 305-310)
    visits every file and ends normally: status 0, no page saved, no
    file and no fetch, and on the error stream one [Filename:] line per
    file followed by [Done] (the [[ERROR]] message of line 309 goes to
    the standard output, not to the error stream). *)
Theorem unreadable_files_are_skipped
        (e : env) (origin : Z) (unwritable : string -> bool)
        (inputs : list (string * option node))
        (saved : list (string * node)) (w : world) :
  Forall (fun input => input.2 = None) inputs ->
  let result := run_files e origin unwritable inputs saved w in
  exit_status result = Some 0
  /\ written result = saved
  /\ files (final result) = files w
  /\ fetched (final result) = fetched w
  /\ stderr (final result)
     = stderr w ++ map (fun input => "Filename: " +:+ input.1) inputs ++ ["Done"].
Proof.
  intros Hall. revert w. induction Hall as [|[name page] inputs Hpage _ IH];
    intros w result.
  - repeat split.
  - cbn [snd] in Hpage. subst page. unfold result. cbn [run_files process_file].
    destruct (IH (print ("Filename: " +:+ name) w))
      as (Hexit & Hwritten & Hfiles & Hfetched & Hstderr).
    repeat split; try assumption.
    rewrite Hstderr. cbn [stderr print map fst]. rewrite <- List.app_assoc.
    reflexivity.
Qed.

(** X19.  In a run that meets no page whose regions hold one another
    (the pages the model of the assembly covers), the pages saved are
    named after input files, in the order of the inputs and each input
    at most once: the names of the newly saved pages form a sublist of
    the input names (lines 302 and 419-426). *)
Theorem run_writes_only_input_names
        (e : env) (origin : Z) (unwritable : string -> bool)
        (inputs : list (string * option node))
        (saved : list (string * node)) (w : world) :
  is_Some (exit_status (run_files e origin unwritable inputs saved w)) ->
  exists new,
    written (run_files e origin unwritable inputs saved w) = saved ++ new
    /\ map fst new `sublist_of` map fst inputs.
Proof.
  intros _.
  revert saved w. induction inputs as [|[name page] inputs IH]; intros saved w.
  - exists []. rewrite app_nil_r. split; [reflexivity | constructor].
  - cbn [run_files].
    destruct (process_file e origin unwritable name page w) as [[| |pg| |ex|] w'].
    + destruct (IH saved w') as (new & -> & Hsub). exists new.
      split; [reflexivity | apply sublist_cons; exact Hsub].
    + destruct (IH saved w') as (new & -> & Hsub). exists new.
      split; [reflexivity | apply sublist_cons; exact Hsub].
    + destruct (IH (saved ++ [(name, pg)]) w') as (new & -> & Hsub).
      exists ((name, pg) :: new). rewrite <- List.app_assoc.
      split; [reflexivity | apply sublist_skip; exact Hsub].
    + destruct (IH saved w') as (new & -> & Hsub). exists new.
      split; [reflexivity | apply sublist_cons; exact Hsub].
    + exists []. rewrite app_nil_r. split; [reflexivity | apply sublist_nil_l].
    + exists []. rewrite app_nil_r. split; [reflexivity | apply sublist_nil_l].
Qed.

(** X20.  A page on which the question and an answer or post were
    found but no footer [div] is not skipped: [date_node] is still
    [None] at line 408, [appendChild(None)] raises [AttributeError],
    and the exception leaves the loop body.  (For regions that do not
    hold one another, as in the model of the assembly.) *)
Theorem page_without_footer_crashes
        (e : env) (origin : Z) (unwritable : string -> bool)
        (filename : string) (document : node) (w : world) (q : path) :
  let r := (scan origin document).2 in
  let c := match post_node r with
           | Some p => p
           | None => default [] (answer_node r)
           end in
  question_node r = Some q ->
  is_Some (answer_node r) \/ is_Some (post_node r) ->
  date_node r = None ->
  (forall t, get_title_node document = Some t ->
             above t q = false /\ above t c = false) ->
  above q c = false -> above c q = false ->
  (process_file e origin unwritable filename (Some document) w).1
  = Crashed AttributeError.
Proof.
  intros r c Hq Hcontent Hdate Htitle Hqc Hcq.
  unfold process_file. subst r c.
  destruct (scan origin document) as [document' r] eqn:Hscan. cbn [snd] in *.
  rewrite Hq, Hdate.
  assert (Hasm : forall c w0,
             (forall t, get_title_node document = Some t ->
                        above t q = false /\ above t c = false) ->
             above q c = false -> above c q = false ->
             assemble e document' (get_title_node document) q c None w0
             = (Crashed AttributeError, w0)).
  { intros c w0 Ht H1 H2. unfold assemble. cbn [existsb]. rewrite H1, H2.
    destruct (get_title_node document) as [t|].
    - destruct (Ht t eq_refl) as [-> ->]. reflexivity.
    - reflexivity. }
  destruct (answer_node r) as [pa|], (post_node r) as [pp|];
    try (rewrite Hasm by assumption; reflexivity).
  destruct Hcontent as [[x H]|[x H]]; discriminate.
Qed.

(** ** Footers *)

Lemma greedy_upto_inv suf s : forall g,
  greedy_upto suf s = Some g -> exists p t, g = p +:+ suf /\ s = g +:+ t.
Proof.
  induction s as [|c r IH]; intros g H; cbn [greedy_upto] in H.
  - destruct (String.eqb_spec suf "") as [->|]; [|discriminate].
    injection H as <-. exists "", "". split; reflexivity.
  - destruct (greedy_upto suf r) as [g0|] eqn:Hr.
    + injection H as <-. destruct (IH g0 eq_refl) as (p & t & -> & ->).
      exists (String c p), t. rewrite !app_cons. split; reflexivity.
    + destruct (String.prefix suf (String c r)) eqn:Hp; [|discriminate].
      injection H as <-. destruct (prefix_inv _ _ Hp) as [t Ht].
      exists "", t. rewrite app_nil. split; [reflexivity | exact Ht].
Qed.

Lemma match_ago_inv label text g :
  match_ago label text = Some g ->
  exists p t, g = p +:+ " ago" /\ text = label +:+ g +:+ t.
Proof.
  unfold match_ago. intros H.
  destruct (lit label text) as [r|] eqn:Hlit; [|discriminate].
  cbn in H. apply lit_inv in Hlit. subst text.
  destruct (span not_newline r) as [line0 rest] eqn:Hspan.
  apply span_app in Hspan. subst r.
  cbn [fst] in H. destruct line0 as [|c line]; [discriminate|].
  destruct (greedy_upto " ago" line) as [g0|] eqn:Hg; [|discriminate].
  injection H as <-.
  destruct (greedy_upto_inv _ _ _ Hg) as (p & t & -> & ->).
  exists (String c p), (t +:+ rest).
  rewrite !app_cons, !app_assoc. split; reflexivity.
Qed.

Lemma ends_o_app x y :
  y <> "" -> endswith "o" (x +:+ y) = endswith "o" y.
Proof.
  intros Hy. apply endswith_app_r. destruct y; [congruence | cbn; lia].
Qed.

Lemma digits_last d :
  all_chars is_digit d = true -> d <> "" ->
  exists d' c, d = d' +:+ String c "" /\ is_digit c = true.
Proof.
  induction d as [|c r IH]; intros Hall Hne; [congruence|].
  cbn [all_chars] in Hall. apply andb_prop in Hall as [Hc Hr].
  destruct r as [|c' r'].
  - exists "", c. split; [reflexivity | exact Hc].
  - destruct (IH Hr) as (d' & c0 & Hd & Hc0); [congruence|].
    exists (String c d'), c0. rewrite app_cons, <- Hd. split; [reflexivity | exact Hc0].
Qed.

Lemma numeral_no_o x d : numeral d = true -> endswith "o" (x +:+ d) = false.
Proof.
  intros Hd. apply numeral_inv in Hd as (Hall & c & r & -> & Hc).
  destruct (digits_last (String c r) Hall) as (d' & c0 & -> & Hc0); [congruence|].
  rewrite <- app_assoc, ends_o_app by congruence.
  destruct (Ascii.eqb_spec c0 "o") as [->|Hne]; [discriminate Hc0|].
  unfold endswith. cbn. destruct (Ascii.eqb_spec c0 "o"); [contradiction | reflexivity].
Qed.

Lemma numeral_eos_no_o x d r :
  numeral d = true -> eos r = true -> endswith "o" (x +:+ d +:+ r) = false.
Proof.
  intros Hd Hr. destruct (eos_inv _ Hr) as [->| ->].
  - rewrite app_empty_r. apply numeral_no_o, Hd.
  - rewrite <- app_assoc, ends_o_app by discriminate. reflexivity.
Qed.

Lemma digits_then_ago u s ds :
  digits_then (u +:+ " ago") s = Some ds ->
  endswith "o" s = true ->
  numeral ds = true /\ s = ds +:+ u +:+ " ago".
Proof.
  unfold digits_then. intros H Ho.
  destruct (digits1 s) as [[ds' r]|] eqn:Hd; [|discriminate]. cbn [mbind option_bind] in H.
  destruct (lit (u +:+ " ago") r) as [r'|] eqn:Hl; [|discriminate]. cbn [mbind option_bind] in H.
  destruct (eos r') eqn:He; [|discriminate]. injection H as <-.
  apply digits1_inv in Hd as (-> & Hnum & _). apply lit_inv in Hl. subst r.
  split; [exact Hnum|].
  destruct (eos_inv _ He) as [->| ->].
  - rewrite app_empty_r. reflexivity.
  - rewrite <- !app_assoc, ends_o_app in Ho by discriminate. discriminate Ho.
Qed.

Lemma ago_is_minutes_or_hours origin p tm :
  resolve_tm origin (p +:+ " ago") = Ok tm ->
  exists ds u, numeral ds = true /\ (u = "m" \/ u = "h")
               /\ p +:+ " ago" = ds +:+ u +:+ " ago".
Proof.
  assert (Ho : endswith "o" (p +:+ " ago") = true)
    by (rewrite ends_o_app by discriminate; reflexivity).
  generalize dependent (p +:+ " ago"). intros s Ho H.
  unfold resolve_tm in H.
  destruct (m0 s) eqn:H0.
  { unfold m0 in H0. destruct (lit "just now" s) as [r|] eqn:Hl; [|discriminate].
    apply lit_inv in Hl. subst s.
    destruct (eos_inv _ H0) as [->| ->]; discriminate Ho. }
  destruct (m6 s) eqn:H6.
  { unfold m6 in H6. destruct (digits1 s) as [[ds [|c r]]|] eqn:Hd; try discriminate.
    apply andb_prop in H6 as [_ H6].
    destruct (lit "m" r) as [r'|] eqn:Hl; [|discriminate].
    apply digits1_inv in Hd as (-> & _ & _). apply lit_inv in Hl. subst r.
    rewrite ends_o_app in Ho by discriminate.
    destruct (eos_inv _ H6) as [->| ->]; discriminate Ho. }
  cbn [orb] in H.
  destruct (m1 s) as [ds|] eqn:H1.
  { destruct (digits_then_ago "m" s ds H1 Ho) as [Hn Hs].
    exists ds, "m". auto. }
  destruct (m2 s) as [ds|] eqn:H2.
  { destruct (digits_then_ago "h" s ds H2 Ho) as [Hn Hs].
    exists ds, "h". auto. }
  exfalso.
  destruct (m3 s) as [d|] eqn:H3.
  { unfold m3 in H3. destruct (alt days_of_week s) as [[d' r]|] eqn:Ha; [|discriminate].
    cbn [mbind option_bind] in H3. destruct (eos r) eqn:He; [|discriminate].
    apply alt_inv in Ha as [Hin ->].
    destruct (eos_inv _ He) as [->| ->];
      repeat (destruct Hin as [<-|Hin]; [discriminate Ho|]); destruct Hin. }
  assert (Hmonth : forall m r, alt months_of_year s = Some (m, r) ->
            forall r1 d r2, lit " " r = Some r1 -> digits1 r1 = Some (d, r2) ->
            (exists x dd rr, r2 = x +:+ dd +:+ rr /\ numeral dd = true
                             /\ eos rr = true) \/ eos r2 = true -> False).
  { intros m r Ha r1 d r2 Hl Hd Hcase.
    apply alt_inv in Ha as [_ ->]. apply lit_inv in Hl. subst r.
    apply digits1_inv in Hd as (-> & Hnum & _).
    destruct Hcase as [(x & dd & rr & -> & Hdd & Hrr)|He].
    - rewrite <- (app_assoc m " "), <- (app_assoc (m +:+ " ") d),
        <- (app_assoc ((m +:+ " ") +:+ d) x) in Ho.
      rewrite (numeral_eos_no_o _ dd rr Hdd Hrr) in Ho. discriminate.
    - rewrite <- (app_assoc m " ") in Ho.
      rewrite (numeral_eos_no_o _ d r2 Hnum He) in Ho. discriminate. }
  destruct (m4 s) as [[gm gd]|] eqn:H4.
  { unfold m4 in H4. destruct (alt months_of_year s) as [[m r]|] eqn:Ha; [|discriminate].
    cbn [mbind option_bind] in H4. destruct (lit " " r) as [r1|] eqn:Hl; [|discriminate]. cbn [mbind option_bind] in H4.
    destruct (digits1 r1) as [[d r2]|] eqn:Hd; [|discriminate]. cbn [mbind option_bind] in H4.
    destruct (eos r2) eqn:He; [|discriminate].
    exact (Hmonth m r eq_refl r1 d r2 Hl Hd (or_intror He)). }
  destruct (m5 s) as [[[gm gd] gy]|] eqn:H5; [|discriminate].
  unfold m5 in H5. destruct (alt months_of_year s) as [[m r]|] eqn:Ha; [|discriminate].
  cbn [mbind option_bind] in H5. destruct (lit " " r) as [r1|] eqn:Hl; [|discriminate]. cbn [mbind option_bind] in H5.
  destruct (digits1 r1) as [[d r2]|] eqn:Hd; [|discriminate]. cbn [mbind option_bind] in H5.
  destruct (lit ", " r2) as [r3|] eqn:Hl3; [|discriminate]. cbn [mbind option_bind] in H5.
  destruct (digits1 r3) as [[y r4]|] eqn:Hy; [|discriminate]. cbn [mbind option_bind] in H5.
  destruct (eos r4) eqn:He; [|discriminate].
  apply lit_inv in Hl3. apply digits1_inv in Hy as (-> & Hnumy & _).
  refine (Hmonth m r eq_refl r1 d r2 Hl Hd (or_introl _)).
  exists ", ", y, r4. auto.
Qed.

Lemma subscript_0_head {A} (l : list A) x : subscript l 0 = Ok x -> head l = Some x.
Proof.
  destruct l as [|y l]; [discriminate|].
  unfold subscript. cbn [Z.ltb Z.compare orb].
  destruct (Z.leb_spec (Z.of_nat (length (y :: l))) 0) as [H|_];
    [cbn [length] in H; lia|].
  intros [= ->]. reflexivity.
Qed.

(** X21.  A footer branch (lines 347-368) changes the footer only
    when the text of its first anchor reads
    [<label><digits>m ago] or [<label><digits>h ago] (possibly followed
    by more text): every other text that ends in [ago], such as
    [2d ago] or [a week ago], makes [parse_quora_date] raise, the
    [except Exception: pass] swallows it and the footer is left as it
    was. *)
Theorem footer_rewrites_only_minute_and_hour_ages
        (label : string) (target origin : Z) (n : node) :
  footer label target origin n <> n ->
  exists a0 first ds unit rest,
    head (filter (fun p => bool_decide (p <> [])) (element_paths "a" n)) = Some a0
    /\ lookup_path a0 n ≫= firstChild = Some first
    /\ numeral ds = true
    /\ (unit = "m" \/ unit = "h")
    /\ nodeValue first = Some (label +:+ ds +:+ unit +:+ " ago" +:+ rest).
Proof.
  unfold footer, footer_try. intros Hchanged.
  destruct (subscript _ 0) as [a0|ex] eqn:Ha0; cbn [rbind] in Hchanged;
    [|congruence].
  apply subscript_0_head in Ha0.
  destruct (lookup_path a0 n ≫= firstChild) as [first|] eqn:Hfirst; [|congruence].
  destruct (nodeValue first) as [text|] eqn:Htext; [|congruence].
  destruct (match_ago label text) as [g|] eqn:Hmatch; [|congruence].
  destruct (parse_quora_date origin g) as [new_time|ex] eqn:Hparse;
    cbn [rbind] in Hchanged; [|congruence].
  destruct (match_ago_inv _ _ _ Hmatch) as (p & t & -> & ->).
  unfold parse_quora_date in Hparse.
  destruct (resolve_tm origin (p +:+ " ago")) as [tm|] eqn:Htm; [|discriminate].
  destruct (ago_is_minutes_or_hours _ _ _ Htm) as (ds & u & Hnum & Hu & Heq).
  exists a0, first, ds, u, t. rewrite Heq, !app_assoc in Htext. auto.
Qed.

(** X22.  Every page the loop body saves for a source whose regions
    do not hold one another (the pages the model of the assembly
    covers) has the same layout (lines 377-408): [html] holds a [head]
    and a [body]; the [head] holds the title element of the source, if
    it has one, then the [meta] with the charset and the [style] with
    the fixed style sheet; the [body] holds the question [div], the
    centred paragraph with its one text node, the content [div] and
    the footer, in this order.  Such a page is saved only when its
    output file can be opened and the question and the footer were
    found. *)
Theorem written_page_layout
        (e : env) (origin : Z) (unwritable : string -> bool)
        (filename : string) (document : node) (w w' : world) (page : node) :
  process_file e origin unwritable filename (Some document) w = (Written page, w') ->
  unwritable filename = false
  /\ is_Some (question_node (scan origin document).2)
  /\ is_Some (date_node (scan origin document).2)
  /\ exists question_out mark content_out footer_node,
      page = Element "html" ∅
               [Element "head" ∅
                  (match get_title_node document
                           ≫= fun t => lookup_path t (scan origin document).1 with
                   | Some t => [t]
                   | None => []
                   end
                   ++ [Element "meta" {[ "charset" := "utf-8" ]} [];
                       Element "style" {[ "type" := "text/css" ]} [Text css]]);
                Element "body" ∅
                  [Element "div" ∅ question_out;
                   Element "p" {[ "style" := "text-align: center;" ]} [Text mark];
                   Element "div" ∅ content_out;
                   footer_node]].
Proof.
  intros H. unfold process_file in H.
  destruct (scan origin document) as [doc r]. cbn [fst snd].
  assert (Hnl : forall w0, not_located w0 <> (Written page, w'))
    by (intros w0; unfold not_located; destruct (read_name "url"); discriminate).
  assert (Hasm : forall q c w0,
             match assemble e doc (get_title_node document) q c (date_node r) w0 with
             | (Written new_page, w2) =>
                 if unwritable filename
                 then (Unwritable,
                       print ("[ERROR] Failed to save to file " +:+ filename) w2)
                 else (Written new_page, w2)
             | other => other
             end = (Written page, w') ->
             unwritable filename = false
             /\ is_Some (date_node r)
             /\ exists question_out mark content_out footer_node,
                 page = Element "html" ∅
                          [Element "head" ∅
                             (match get_title_node document
                                      ≫= fun t => lookup_path t doc with
                              | Some t => [t]
                              | None => []
                              end
                              ++ [Element "meta" {[ "charset" := "utf-8" ]} [];
                                  Element "style" {[ "type" := "text/css" ]} [Text css]]);
                           Element "body" ∅
                             [Element "div" ∅ question_out;
                              Element "p" {[ "style" := "text-align: center;" ]}
                                      [Text mark];
                              Element "div" ∅ content_out;
                              footer_node]]).
  { intros q c w0 Ha.
    destruct (assemble e doc (get_title_node document) q c (date_node r) w0)
      as [[| |pg| | |] w2] eqn:Hasm; try discriminate.
    destruct (unwritable filename); [discriminate|].
    injection Ha as -> ->. split; [reflexivity|].
    unfold assemble in Hasm.
    match type of Hasm with (if ?b then _ else _) = _ => destruct b end;
      [discriminate|].
    destruct (date_node r) as [d|]; [|discriminate]. split; [eauto|].
    repeat match type of Hasm with
           | match ?x with _ => _ end = _ => destruct x; try discriminate
           end.
    injection Hasm as <-. eauto. }
  destruct (question_node r) as [q|].
  - destruct (answer_node r), (post_node r);
      try (destruct (Hasm _ _ _ H) as (Hu & Hd & Hp); eauto);
      exfalso; exact (Hnl _ H).
  - destruct (answer_node r), (post_node r); exfalso; exact (Hnl _ H).
Qed.








Lemma fetched_not_located w : fetched (not_located w).2 = fetched w.
Proof. unfold not_located. destruct (read_name "url"); reflexivity. Qed.

Lemma cleanup_tree_no_fetch e src w :
  no_download e = true -> fetched (cleanup_tree e src w).2 = fetched w.
Proof.
  intros Hoff.
  apply (RewriteEffects.cleanup_tree_frame e (fun w w' => fetched w' = fetched w)).
  - reflexivity.
  - intros w1 w2 w3 H12 H23. congruence.
  - reflexivity.
  - intros c w0. unfold image. rewrite Hoff. reflexivity.
Qed.

Lemma assemble_no_fetch e document title q c date w :
  no_download e = true ->
  fetched (assemble e document title q c date w).2 = fetched w.
Proof.
  intros Hoff. unfold assemble.
  match goal with |- context [if ?b then _ else _] => destruct b end;
    [reflexivity|].
  destruct date as [d|]; [|reflexivity].
  repeat match goal with
         | |- context [match lookup_path ?p ?n with _ => _ end] =>
             destruct (lookup_path p n); try reflexivity
         end.
  match goal with
  | |- context [cleanup_tree e ?n w] =>
      pose proof (cleanup_tree_no_fetch e n w Hoff) as H1;
      destruct (cleanup_tree e n w) as [oq w1]
  end.
  cbn [snd] in H1. destruct (raised oq); [exact H1|].
  match goal with
  | |- context [cleanup_tree e ?n w1] =>
      pose proof (cleanup_tree_no_fetch e n w1 Hoff) as H2;
      destruct (cleanup_tree e n w1) as [oc w2]
  end.
  cbn [snd] in H2. destruct (raised oc); cbn [snd]; congruence.
Qed.

Lemma process_file_no_fetch e origin unwritable filename page w :
  no_download e = true ->
  fetched (process_file e origin unwritable filename page w).2 = fetched w.
Proof.
  intros Hoff. unfold process_file. destruct page as [document|]; [|reflexivity].
  destruct (scan origin document) as [doc r].
  set (w1 := log_if_v e _ _).
  assert (Hw1 : fetched w1 = fetched w)
    by (unfold w1; rewrite fetched_log_if_v; reflexivity).
  assert (Hasm : forall q c,
             fetched (match assemble e doc (get_title_node document) q c
                                     (date_node r) w1 with
                      | (Written new_page, w') =>
                          if unwritable filename
                          then (Unwritable,
                                print ("[ERROR] Failed to save to file "
                                       +:+ filename) w')
                          else (Written new_page, w')
                      | other => other
                      end).2 = fetched w).
  { intros q c.
    pose proof (assemble_no_fetch e doc (get_title_node document) q c
                  (date_node r) w1 Hoff) as H.
    destruct (assemble _ _ _ _ _ _ _) as [[| |pg| | |] w2]; cbn [snd] in *;
      try congruence.
    destruct (unwritable filename); cbn [snd fetched print]; congruence. }
  destruct (answer_node r), (post_node r), (question_node r);
    rewrite ?fetched_not_located; try apply Hasm; exact Hw1.
Qed.

(** X26.  A run with [--no_download] that meets no page whose regions
    hold one another (the pages the model of the assembly covers)
    opens no URL, whatever else the pages hold and whether the run
    ends normally or by an exception: the list of fetched URLs after
    the run is the list before it (lines 184-186 are the only way past
    the image guard, lines 302-428 call nothing else that fetches). *)
Theorem no_download_run_fetches_nothing
        (e : env) (origin : Z) (unwritable : string -> bool)
        (inputs : list (string * option node))
        (saved : list (string * node)) (w : world) :
  no_download e = true ->
  is_Some (exit_status (run_files e origin unwritable inputs saved w)) ->
  fetched (final (run_files e origin unwritable inputs saved w)) = fetched w.
Proof.
  intros Hoff _. revert saved w.
  induction inputs as [|[name page] inputs IH]; intros saved w; [reflexivity|].
  cbn [run_files].
  pose proof (process_file_no_fetch e origin unwritable name page w Hoff) as H.
  destruct (process_file e origin unwritable name page w) as [[| |pg| |ex|] w'];
    cbn [snd final] in *; rewrite ?IH; exact H.
Qed.

Lemma unreadable_files_are_skipped_witness :
  let inputs := [("a.html", None); ("b.html", None)] in
  let result := run_files sample_env 0 (fun _ => false) inputs [] empty_world in
  Forall (fun input : string * option node => input.2 = None) inputs
  /\ exit_status result = Some 0
  /\ written result = []
  /\ stderr (final result) = ["Filename: a.html"; "Filename: b.html"; "Done"].
Proof.
  intros inputs result.
  assert (Hall : Forall (fun input : string * option node => input.2 = None) inputs)
    by (repeat constructor).
  split; [exact Hall|].
  destruct (unreadable_files_are_skipped
              sample_env 0 (fun _ => false) inputs [] empty_world Hall)
    as (Hexit & Hwritten & _ & _ & Hstderr).
  split; [exact Hexit|]. split; [exact Hwritten | exact Hstderr].
Defined.

Lemma page_without_footer_crashes_witness :
  question_node (scan 1422748800 footless_page).2 = Some [1; 0]%nat
  /\ answer_node (scan 1422748800 footless_page).2 = Some [1; 1]%nat
  /\ (process_file sample_env 1422748800 (fun _ => false) "a.html"
                   (Some footless_page) empty_world).1
     = Crashed AttributeError.
Proof.
  split; [reflexivity|]. split; [reflexivity|].
  apply (page_without_footer_crashes
           sample_env 1422748800 (fun _ => false) "a.html"
           footless_page empty_world [1; 0]%nat).
  - reflexivity.
  - left. eexists. reflexivity.
  - reflexivity.
  - intros t Ht. vm_compute in Ht. injection Ht as <-. split; reflexivity.
  - reflexivity.
  - reflexivity.
Defined.

Lemma footer_rewrites_only_minute_and_hour_ages_witness :
  let n := Element "div" {[ "class" := "CredibilityFacts" ]}
                   [Element "a" ∅ [Text "Answered 3h ago"]] in
  footer "Answered " 0 1422748800 n <> n
  /\ exists a0 first ds unit rest,
      head (filter (fun p => bool_decide (p <> [])) (element_paths "a" n))
      = Some a0
      /\ lookup_path a0 n ≫= firstChild = Some first
      /\ numeral ds = true
      /\ (unit = "m" \/ unit = "h")
      /\ nodeValue first = Some ("Answered " +:+ ds +:+ unit +:+ " ago" +:+ rest).
Proof.
  intros n.
  assert (Hchanged : footer "Answered " 0 1422748800 n <> n)
    by (vm_compute; discriminate).
  split; [exact Hchanged|].
  exact (footer_rewrites_only_minute_and_hour_ages
           "Answered " 0 1422748800 n Hchanged).
Defined.

Lemma written_page_layout_witness :
  exists page w',
    process_file no_download_env 1422748800 (fun _ => false) "a.html"
                 (Some answer_page) empty_world
    = (Written page, w')
    /\ exists question_out mark content_out footer_node,
        page = Element "html" ∅
                 [Element "head" ∅
                    [Element "title" ∅ [Text "Why?"];
                     Element "meta" {[ "charset" := "utf-8" ]} [];
                     Element "style" {[ "type" := "text/css" ]} [Text css]];
                  Element "body" ∅
                    [Element "div" ∅ question_out;
                     Element "p" {[ "style" := "text-align: center;" ]}
                             [Text mark];
                     Element "div" ∅ content_out;
                     footer_node]].
Proof.
  destruct (process_file no_download_env 1422748800 (fun _ => false) "a.html"
                         (Some answer_page) empty_world)
    as [[| |page| |ex|] w'] eqn:E;
    try (exfalso; revert E; vm_compute; discriminate).
  exists page, w'. split; [reflexivity|].
  destruct (written_page_layout _ _ _ _ _ _ _ _ E)
    as (_ & _ & _ & q & m & c & f & Hpage).
  exists q, m, c, f. exact Hpage.
Defined.

Lemma no_download_run_fetches_nothing_witness :
  let page :=
    Element "html" ∅
      [Element "body" ∅
         [Element "div" {[ "class" := "ans_page_question_header" ]} [Text "Why?"];
          Element "div" {[ "class" := "ExpandedAnswer" ]}
            [Element "img" {[ "src" := "http://host/a.png" ]} []];
          Element "div" {[ "class" := "CredibilityFacts" ]}
            [Element "a" ∅ [Text "Answered 3h ago"]]]] in
  let result :=
    run_files no_download_env 1422748800 (fun _ => false)
              [("a.html", Some page)] [] empty_world in
  exit_status result = Some 0
  /\ map fst (written result) = ["a.html"]
  /\ fetched (final result) = fetched empty_world.
Proof.
  intros page result. split; [reflexivity|]. split; [reflexivity|].
  apply (no_download_run_fetches_nothing
           no_download_env 1422748800 (fun _ => false)
           [("a.html", Some page)] [] empty_world).
  - reflexivity.
  - exists 0. reflexivity.
Defined.

Lemma run_writes_only_input_names_witness :
  let inputs :=
    [("a.html", Some answer_page); ("b.html", None);
     ("c.html", Some answer_page)] in
  let result :=
    run_files no_download_env 1422748800 (fun _ => false) inputs [] empty_world in
  exit_status result = Some 0
  /\ map fst (written result) = ["a.html"; "c.html"]
  /\ exists new,
      written result = [] ++ new
      /\ map fst new `sublist_of` map fst inputs.
Proof.
  intros inputs result. split; [reflexivity|]. split; [reflexivity|].
  apply (run_writes_only_input_names
           no_download_env 1422748800 (fun _ => false) inputs [] empty_world).
  exists 0. reflexivity.
Defined.

End PageAssemblerMore.
